(** * AVR_SPI_with_interrupts: a shallow embedding of the driver

    The development follows [src/AVR_SPI_with_interrupts.cpp]:
    the receive interrupt handler [ISR(SPI_STC_vect)], the foreground
    hand-off [SPI_readAll], the slave-select guarded transfers and the
    two pure helpers [hexArrayToUint64_t] and [SPI_strcmp].

    Integers of the C program are values of [Z] with the wrap-around of
    their C type written out ([uint8_t] modulo 2^8, [size_t] modulo 2^16
    as on avr-gcc, [uint64_t] modulo 2^64).  Arrays are lists; an access
    outside an array is undefined behaviour in C and is a [Fault] here.  *)

From Stdlib Require Import ZArith List Bool Lia String Ascii.
From stdpp Require Import base list.
Import ListNotations.

Local Open Scope Z_scope.

(** ** Constants of the headers *)

Definition DATA_END_CHAR : Z := 0x0D.
Definition DATA_LENGTH : Z := 50 + 1.

Definition INVERTED_SS_CONTROL : Z := 0.
Definition DEFAULT_SS_CONTROL : Z := 1.

(** ** C integer types *)

Definition to_uint8 (x : Z) : Z := x mod 2 ^ 8.
(** [size_t] is [unsigned int] on AVR, 16 bits wide. *)
Definition to_size_t (x : Z) : Z := x mod 2 ^ 16.
Definition to_uint64 (x : Z) : Z := x mod 2 ^ 64.

(** The [int] value of a C comparison. *)
Definition b2i (b : bool) : Z := if b then 1 else 0.

(** ** Arrays with checked accesses *)

Inductive array_id := ARR_SPI_data | ARR_SPI_buffer | ARR_array.

Inductive fault :=
| OutOfBounds (a : array_id) (i : Z)
| OutOfFuel.

Inductive result (A : Type) :=
| Ok (a : A)
| Fault (f : fault).
Arguments Ok {A} a.
Arguments Fault {A} f.

Definition bind {A B} (r : result A) (k : A -> result B) : result B :=
  match r with
  | Ok a => k a
  | Fault f => Fault f
  end.

Notation "'let*' x ':=' r 'in' k" := (bind r (fun x => k))
  (at level 10, x name, r at level 100, k at level 200).

Definition in_bounds (arr : list Z) (i : Z) : bool :=
  (0 <=? i) && (i <? Z.of_nat (length arr)).

(** [arr[i]] as an rvalue. *)
Definition load (a : array_id) (arr : list Z) (i : Z) : result Z :=
  if in_bounds arr i then
    match arr !! Z.to_nat i with
    | Some v => Ok v
    | None => Fault (OutOfBounds a i)
    end
  else Fault (OutOfBounds a i).

(** [arr[i] = v]. *)
Definition store (a : array_id) (arr : list Z) (i v : Z) : result (list Z) :=
  if in_bounds arr i then Ok (<[Z.to_nat i := v]> arr)
  else Fault (OutOfBounds a i).

(** ** The globals of the receive path *)

Record state := mkState {
  SPI_data : list Z;        (* uint8_t SPI_data[DATA_LENGTH] *)
  SPI_buffer : list Z;      (* volatile uint8_t SPI_buffer[DATA_LENGTH] *)
  dataIndex : Z;            (* volatile uint8_t *)
  dataReceived : bool;      (* volatile bool *)
  receivedBytes : Z         (* volatile size_t *)
}.

(** Static initialisation: both arrays zeroed, [cap] elements each. *)
Definition init_state (cap : Z) : state :=
  {| SPI_data := replicate (Z.to_nat cap) 0;
     SPI_buffer := replicate (Z.to_nat cap) 0;
     dataIndex := 0;
     dataReceived := false;
     receivedBytes := 0 |}.

Definition set_SPI_data (st : state) (d : list Z) : state :=
  {| SPI_data := d; SPI_buffer := SPI_buffer st; dataIndex := dataIndex st;
     dataReceived := dataReceived st; receivedBytes := receivedBytes st |}.

Definition set_SPI_buffer (st : state) (b : list Z) : state :=
  {| SPI_data := SPI_data st; SPI_buffer := b; dataIndex := dataIndex st;
     dataReceived := dataReceived st; receivedBytes := receivedBytes st |}.

Definition set_dataIndex (st : state) (i : Z) : state :=
  {| SPI_data := SPI_data st; SPI_buffer := SPI_buffer st; dataIndex := i;
     dataReceived := dataReceived st; receivedBytes := receivedBytes st |}.

Definition set_dataReceived (st : state) (f : bool) : state :=
  {| SPI_data := SPI_data st; SPI_buffer := SPI_buffer st; dataIndex := dataIndex st;
     dataReceived := f; receivedBytes := receivedBytes st |}.

Definition set_receivedBytes (st : state) (n : Z) : state :=
  {| SPI_data := SPI_data st; SPI_buffer := SPI_buffer st; dataIndex := dataIndex st;
     dataReceived := dataReceived st; receivedBytes := n |}.

(** ** ISR(SPI_STC_vect)

    [SPDR] is the byte the hardware latched.  The handler stores it at
    [SPI_buffer[dataIndex]] first and only then compares the stored cell
    with [DATA_END_CHAR]. *)
Definition ISR_SPI_STC (SPDR : Z) (st : state) : result state :=
  let* buf := store ARR_SPI_buffer (SPI_buffer st) (dataIndex st) SPDR in
  let st := set_SPI_buffer st buf in
  let* c := load ARR_SPI_buffer (SPI_buffer st) (dataIndex st) in
  if negb (c =? DATA_END_CHAR) then
    let st := set_dataIndex st (to_uint8 (dataIndex st + 1)) in
    Ok (set_receivedBytes st (to_size_t (receivedBytes st + 1)))
  else
    let st := set_dataReceived st true in
    Ok (set_dataIndex st 0).

(** One handler invocation per received byte. *)
Fixpoint run_ISR (bytes : list Z) (st : state) : result state :=
  match bytes with
  | [] => Ok st
  | b :: rest => let* st' := ISR_SPI_STC b st in run_ISR rest st'
  end.

(** ** flushBuffer

    [for(size_t i = 0; i < size; i++) array[i] = '\0';]
    [n] is the number of iterations left, [i] the loop counter. *)
Fixpoint flush_loop (a : array_id) (n : nat) (i : Z) (array : list Z)
  : result (list Z) :=
  match n with
  | O => Ok array
  | S n' => let* array' := store a array i 0 in flush_loop a n' (i + 1) array'
  end.

Definition flushBuffer (a : array_id) (array : list Z) (size : Z)
  : result (list Z) :=
  flush_loop a (Z.to_nat size) 0 array.

(** ** SPI_readAll

    [while(SPI_buffer[i] != DATA_END_CHAR) { SPI_data[i] = SPI_buffer[i]; i++; }]
    The loop has no bound of its own: it stops at the first terminator
    cell, or leaves the array.  Both the test and the body read
    [SPI_buffer[i]], which is volatile. *)
Fixpoint copy_loop (fuel : nat) (i : Z) (buffer data : list Z)
  : result (list Z) :=
  match fuel with
  | O => Fault OutOfFuel
  | S fuel' =>
      let* c := load ARR_SPI_buffer buffer i in
      if negb (c =? DATA_END_CHAR) then
        let* v := load ARR_SPI_buffer buffer i in
        let* data' := store ARR_SPI_data data i v in
        copy_loop fuel' (i + 1) buffer data'
      else Ok data
  end.

(** The fuel covers every cell of the working buffer and the test that
    leaves it.  The last loop,
    [for(size_t i = 0; i < receivedBytes; i++) SPI_buffer[i] = '\0';],
    is written out in the source; it is the loop of [flushBuffer]. *)
Definition SPI_readAll (st : state) : result (bool * state) :=
  if dataReceived st then
    let* data := flushBuffer ARR_SPI_data (SPI_data st) (receivedBytes st) in
    let* data := copy_loop (S (length (SPI_buffer st))) 0 (SPI_buffer st) data in
    let* buf :=
      flush_loop ARR_SPI_buffer (Z.to_nat (receivedBytes st)) 0 (SPI_buffer st) in
    let st := set_SPI_data st data in
    let st := set_SPI_buffer st buf in
    let st := set_dataReceived st false in
    let st := set_receivedBytes st 0 in
    Ok (true, st)
  else Ok (false, st).

(** The state the handler leaves when its store is inside the array. *)
Definition ISR_post (SPDR : Z) (st : state) (buf : list Z) : state :=
  if SPDR =? DATA_END_CHAR then
    mkState (SPI_data st) buf 0 true (receivedBytes st)
  else
    mkState (SPI_data st) buf (to_uint8 (dataIndex st + 1)) (dataReceived st)
            (to_size_t (receivedBytes st + 1)).

(** ** Foreground and interrupt at the granularity of whole calls *)

Inductive event :=
| Recv (SPDR : Z)      (* one byte arrives: the handler runs *)
| ReadAll.             (* the main loop calls SPI_readAll() *)

Definition exec (e : event) (st : state) : result state :=
  match e with
  | Recv b => ISR_SPI_STC b st
  | ReadAll => let* r := SPI_readAll st in Ok (snd r)
  end.

Fixpoint run (evs : list event) (st : state) : result state :=
  match evs with
  | [] => Ok st
  | e :: rest => let* st' := exec e st in run rest st'
  end.

(** ** SPI_readAll statement by statement

    The handler can preempt the foreground between any two statements:
    the function never masks the interrupt.  The labels are the program
    points of [SPI_readAll]; [flushBuffer] receives [receivedBytes] by
    value, the last [for] loop reads it again on every test. *)
Inductive label :=
| L_test                    (* if(dataReceived == true) *)
| L_call                    (* flushBuffer(SPI_data, receivedBytes): the call *)
| L_flush (i size : Z)      (* flushBuffer: i < size ? array[i] = '\0', i++ *)
| L_copy_test (i : Z)       (* while(SPI_buffer[i] != DATA_END_CHAR) *)
| L_copy_body (i : Z)       (* SPI_data[i] = SPI_buffer[i]; i++; *)
| L_clear (i : Z)           (* i < receivedBytes ? SPI_buffer[i] = '\0', i++ *)
| L_flag                    (* dataReceived = false; *)
| L_count                   (* receivedBytes = 0; *)
| L_return (r : bool).      (* return r; *)

Definition fg_step (pc : label) (st : state) : result (label * state) :=
  match pc with
  | L_test =>
      if dataReceived st then Ok (L_call, st) else Ok (L_return false, st)
  | L_call => Ok (L_flush 0 (receivedBytes st), st)
  | L_flush i size =>
      if i <? size then
        let* data := store ARR_SPI_data (SPI_data st) i 0 in
        Ok (L_flush (i + 1) size, set_SPI_data st data)
      else Ok (L_copy_test 0, st)
  | L_copy_test i =>
      let* c := load ARR_SPI_buffer (SPI_buffer st) i in
      if negb (c =? DATA_END_CHAR) then Ok (L_copy_body i, st)
      else Ok (L_clear 0, st)
  | L_copy_body i =>
      let* v := load ARR_SPI_buffer (SPI_buffer st) i in
      let* data := store ARR_SPI_data (SPI_data st) i v in
      Ok (L_copy_test (i + 1), set_SPI_data st data)
  | L_clear i =>
      if i <? receivedBytes st then
        let* buf := store ARR_SPI_buffer (SPI_buffer st) i 0 in
        Ok (L_clear (i + 1), set_SPI_buffer st buf)
      else Ok (L_flag, st)
  | L_flag => Ok (L_count, set_dataReceived st false)
  | L_count => Ok (L_return true, set_receivedBytes st 0)
  | L_return r => Ok (L_return r, st)
  end.

Inductive action :=
| Fg                   (* the foreground executes its next statement *)
| Irq (SPDR : Z).      (* a byte arrives and the handler runs to completion *)

Definition machine_step (a : action) (c : label * state)
  : result (label * state) :=
  match a with
  | Fg => fg_step (fst c) (snd c)
  | Irq b => let* st' := ISR_SPI_STC b (snd c) in Ok (fst c, st')
  end.

Fixpoint run_machine (sched : list action) (c : label * state)
  : result (label * state) :=
  match sched with
  | [] => Ok c
  | a :: rest => let* c' := machine_step a c in run_machine rest c'
  end.

(** The bytes a schedule delivers, in order. *)
Fixpoint irq_bytes (sched : list action) : list Z :=
  match sched with
  | [] => []
  | Fg :: rest => irq_bytes rest
  | Irq b :: rest => b :: irq_bytes rest
  end.

(** The hand-off as one indivisible step, with the handler invocations
    placed before and after it. *)
Definition serial (pre post : list Z) (st : state) : result (bool * state) :=
  let* st1 := run_ISR pre st in
  let* r := SPI_readAll st1 in
  let* st2 := run_ISR post (snd r) in
  Ok (fst r, st2).

(** An execution of [SPI_readAll] under the schedule [sched] is atomic when
    it has the outcome of some serial placement of the same bytes. *)
Definition swap_atomic (st : state) (sched : list action) : Prop :=
  forall r st',
    run_machine sched (L_test, st) = Ok (L_return r, st') ->
    exists pre post,
      irq_bytes sched = pre ++ post /\ serial pre post st = Ok (r, st').

(** ** Reading the specification's sentences

    The transition of the Receive Framer as the specification words it:
    a terminator only raises the flag and resets the cursor, any other
    byte is stored at the cursor, which is then incremented. *)
Definition framer_as_specified (b : Z) (st : state) : state :=
  if b =? DATA_END_CHAR then set_dataIndex (set_dataReceived st true) 0
  else
    set_dataIndex
      (set_SPI_buffer st (<[Z.to_nat (dataIndex st) := b]> (SPI_buffer st)))
      (dataIndex st + 1).

(** The payload bytes of the frame that is still open after [bytes]. *)
Fixpoint open_frame_from (cur : list Z) (bytes : list Z) : list Z :=
  match bytes with
  | [] => cur
  | b :: rest =>
      open_frame_from (if b =? DATA_END_CHAR then [] else cur ++ [b]) rest
  end.

Definition open_frame (bytes : list Z) : list Z := open_frame_from [] bytes.

(** The payload bytes of the last frame that a terminator closed. *)
Fixpoint last_frame_from (cur last : list Z) (bytes : list Z) : list Z :=
  match bytes with
  | [] => last
  | b :: rest =>
      if b =? DATA_END_CHAR then last_frame_from [] cur rest
      else last_frame_from (cur ++ [b]) last rest
  end.

Definition last_frame (bytes : list Z) : list Z := last_frame_from [] [] bytes.

(** Every byte arrives while fewer than [cap] payload bytes are pending. *)
Definition frames_fit (cap : Z) (bytes : list Z) : Prop :=
  forall p x s, bytes = p ++ x :: s -> Z.of_nat (length (open_frame p)) < cap.

Definition is_end (b : Z) : bool := b =? DATA_END_CHAR.

(** The bytes received since the last hand-off that found the flag raised,
    that is, found a terminator among them. *)
Fixpoint unread_from (acc : list Z) (evs : list event) : list Z :=
  match evs with
  | [] => acc
  | Recv b :: rest => unread_from (acc ++ [b]) rest
  | ReadAll :: rest => unread_from (if existsb is_end acc then [] else acc) rest
  end.

Definition unread (evs : list event) : list Z := unread_from [] evs.

Definition payload_count (bytes : list Z) : Z :=
  Z.of_nat (length (List.filter (fun b => negb (is_end b)) bytes)).

(** ** The master side: transfers guarded by the slave-select line

    What a function does to the hardware is the list of its register
    writes, in program order.  The busy wait on [SPIF] after a write to
    [SPDR] ends when the hardware has shifted the byte out; the source has
    no timeout and the trace takes the completion for granted. *)
Inductive io_event :=
| PORT_write (v : Z)       (* *SS_PORTx = v *)
| SPDR_write (b : Z).      (* SPDR = b, one byte goes over the bus *)

(** The argument is converted to [uint8_t] at the call. *)
Definition SPI_masterPutUint8_t (data : Z) : list io_event :=
  [SPDR_write (to_uint8 data)].

(** [miso] is the byte the slave shifts in while the dummy byte goes out. *)
Definition SPI_masterReadUint8_t (miso : Z) : Z * list io_event :=
  (to_uint8 miso, [SPDR_write 0xFF]).

(** [SS_PORTx] is the value read from [*SS_PORTx] on entry. *)
Definition SPI_transmitUint8_t (SS_PORTx SS_PORTxn SSmode data : Z)
  : list io_event :=
  let pullHigh := to_uint8 (Z.lor SS_PORTx (Z.shiftl 1 SS_PORTxn)) in
  let pullLow := to_uint8 (Z.land SS_PORTx (Z.lnot (Z.shiftl 1 SS_PORTxn))) in
  [PORT_write (to_uint8 (b2i (SSmode =? DEFAULT_SS_CONTROL) * pullLow
                         + b2i (SSmode =? INVERTED_SS_CONTROL) * pullHigh))]
  ++ SPI_masterPutUint8_t data
  ++ SPI_masterPutUint8_t DATA_END_CHAR
  ++ [PORT_write (to_uint8 (b2i (SSmode =? DEFAULT_SS_CONTROL) * pullHigh
                            + b2i (SSmode =? INVERTED_SS_CONTROL) * pullLow))].

(** [while( *data) { SPI_masterPutUint8_t( *data); data++; }]
    A C string is given by its chars, the terminating NUL being implied
    after the last one; nothing after an embedded NUL is read. *)
Fixpoint transmitString_loop (data : list Z) : list io_event :=
  match data with
  | [] => []
  | c :: rest =>
      if c =? 0 then []
      else SPI_masterPutUint8_t c ++ transmitString_loop rest
  end.

Definition SPI_transmitString (SS_PORTx SS_PORTxn SSmode : Z) (data : list Z)
  : list io_event :=
  let pullHigh := to_uint8 (Z.lor SS_PORTx (Z.shiftl 1 SS_PORTxn)) in
  let pullLow := to_uint8 (Z.land SS_PORTx (Z.lnot (Z.shiftl 1 SS_PORTxn))) in
  [PORT_write (to_uint8 (b2i (SSmode =? DEFAULT_SS_CONTROL) * pullLow
                         + b2i (SSmode =? INVERTED_SS_CONTROL) * pullHigh))]
  ++ transmitString_loop data
  ++ SPI_masterPutUint8_t DATA_END_CHAR
  ++ [PORT_write (to_uint8 (b2i (SSmode =? DEFAULT_SS_CONTROL) * pullHigh
                            + b2i (SSmode =? INVERTED_SS_CONTROL) * pullLow))].

Definition SPI_receiveUint8_t (SS_PORTx SS_PORTxn SSmode miso : Z)
  : Z * list io_event :=
  let pullHigh := to_uint8 (Z.lor SS_PORTx (Z.shiftl 1 SS_PORTxn)) in
  let pullLow := to_uint8 (Z.land SS_PORTx (Z.lnot (Z.shiftl 1 SS_PORTxn))) in
  let r := SPI_masterReadUint8_t miso in
  (fst r,
   [PORT_write (to_uint8 (b2i (SSmode =? DEFAULT_SS_CONTROL) * pullLow
                          + b2i (SSmode =? INVERTED_SS_CONTROL) * pullHigh))]
   ++ snd r
   ++ [PORT_write (to_uint8 (b2i (SSmode =? DEFAULT_SS_CONTROL) * pullHigh
                             + b2i (SSmode =? INVERTED_SS_CONTROL) * pullLow))]).

(** [for(int i = numBytes - 1; i >= 0; i--)
      SPI_masterPutUint8_t((hexNumber >> (i * 8)) & mask);]
    [n] is [i + 1].  The shift is defined in C for [i * 8 < 64] only. *)
Fixpoint transmitHex_loop (n : nat) (hexNumber mask : Z) : list io_event :=
  match n with
  | O => []
  | S i =>
      SPI_masterPutUint8_t (Z.land (Z.shiftr hexNumber (Z.of_nat i * 8)) mask)
      ++ transmitHex_loop i hexNumber mask
  end.

Definition SPI_transmitHex (SS_PORTx SS_PORTxn SSmode numBytes hexNumber : Z)
  : list io_event :=
  let mask := 0xFF in
  let pullHigh := to_uint8 (Z.lor SS_PORTx (Z.shiftl 1 SS_PORTxn)) in
  let pullLow := to_uint8 (Z.land SS_PORTx (Z.lnot (Z.shiftl 1 SS_PORTxn))) in
  [PORT_write (to_uint8 (b2i (SSmode =? DEFAULT_SS_CONTROL) * pullLow
                         + b2i (SSmode =? INVERTED_SS_CONTROL) * pullHigh))]
  ++ transmitHex_loop (Z.to_nat numBytes) hexNumber mask
  ++ SPI_masterPutUint8_t DATA_END_CHAR
  ++ [PORT_write (to_uint8 (b2i (SSmode =? DEFAULT_SS_CONTROL) * pullHigh
                            + b2i (SSmode =? INVERTED_SS_CONTROL) * pullLow))].

(** The payload bytes [SPI_transmitHex] puts on the bus, most significant
    first. *)
Fixpoint hex_bytes (n : nat) (hexNumber : Z) : list Z :=
  match n with
  | O => []
  | S i => (hexNumber / 2 ^ (8 * Z.of_nat i)) mod 2 ^ 8 :: hex_bytes i hexNumber
  end.

(** The two values a guarded operation writes to the port; each of the four
    functions repeats these expressions verbatim. *)
Definition SS_begin (SS_PORTx SS_PORTxn SSmode : Z) : Z :=
  let pullHigh := to_uint8 (Z.lor SS_PORTx (Z.shiftl 1 SS_PORTxn)) in
  let pullLow := to_uint8 (Z.land SS_PORTx (Z.lnot (Z.shiftl 1 SS_PORTxn))) in
  to_uint8 (b2i (SSmode =? DEFAULT_SS_CONTROL) * pullLow
            + b2i (SSmode =? INVERTED_SS_CONTROL) * pullHigh).

Definition SS_end (SS_PORTx SS_PORTxn SSmode : Z) : Z :=
  let pullHigh := to_uint8 (Z.lor SS_PORTx (Z.shiftl 1 SS_PORTxn)) in
  let pullLow := to_uint8 (Z.land SS_PORTx (Z.lnot (Z.shiftl 1 SS_PORTxn))) in
  to_uint8 (b2i (SSmode =? DEFAULT_SS_CONTROL) * pullHigh
            + b2i (SSmode =? INVERTED_SS_CONTROL) * pullLow).

(** The four guarded operations under one name, to state what they share. *)
Inductive guarded_op :=
| TransmitUint8_t (data : Z)
| TransmitString (data : list Z)
| ReceiveUint8_t (miso : Z)
| TransmitHex (numBytes hexNumber : Z).

Definition trace_of (op : guarded_op) (SS_PORTx SS_PORTxn SSmode : Z)
  : list io_event :=
  match op with
  | TransmitUint8_t data => SPI_transmitUint8_t SS_PORTx SS_PORTxn SSmode data
  | TransmitString data => SPI_transmitString SS_PORTx SS_PORTxn SSmode data
  | ReceiveUint8_t miso => snd (SPI_receiveUint8_t SS_PORTx SS_PORTxn SSmode miso)
  | TransmitHex numBytes hexNumber =>
      SPI_transmitHex SS_PORTx SS_PORTxn SSmode numBytes hexNumber
  end.

Definition is_transfer (e : io_event) : bool :=
  match e with SPDR_write _ => true | PORT_write _ => false end.

(** The bytes sent over the bus, in order. *)
Definition bus_bytes (t : list io_event) : list Z :=
  flat_map (fun e => match e with SPDR_write b => [b] | PORT_write _ => [] end) t.

(** The values written to the slave-select port, in order. *)
Definition port_writes (t : list io_event) : list Z :=
  flat_map (fun e => match e with PORT_write v => [v] | SPDR_write _ => [] end) t.

(** ** hexArrayToUint64_t

    [for(size_t i = 0; i < size; i++)
       combinedHex = (combinedHex << 8) | array[i];] *)
Fixpoint hexArray_loop (n : nat) (i : Z) (array : list Z) (combinedHex : Z)
  : result Z :=
  match n with
  | O => Ok combinedHex
  | S n' =>
      let* b := load ARR_array array i in
      hexArray_loop n' (i + 1) array
        (to_uint64 (Z.lor (Z.shiftl combinedHex 8) b))
  end.

Definition hexArrayToUint64_t (array : list Z) (size : Z) : result Z :=
  hexArray_loop (Z.to_nat size) 0 array 0.

(** The big-endian value of the specification:
    [b0<<8(n-1) | b1<<8(n-2) | ... | bn-1]. *)
Fixpoint big_endian (bytes : list Z) : Z :=
  match bytes with
  | [] => 0
  | b :: rest => Z.lor (Z.shiftl b (8 * Z.of_nat (length rest))) (big_endian rest)
  end.

Definition is_byte (b : Z) : Prop := 0 <= b < 2 ^ 8.

(** ** SPI_strcmp

    [strcmp] is the C library's.  avr-libc, which the driver is built
    against, walks both strings and returns the difference of the first
    pair of bytes that differ, read as [unsigned char], or 0 when both
    strings end together.  A C string is given by its chars, the
    terminating NUL being implied after the last one. *)
Fixpoint strcmp (s1 s2 : list Z) : Z :=
  match s1, s2 with
  | [], [] => 0
  | [], c2 :: _ => 0 - c2
  | c1 :: _, [] => c1 - 0
  | c1 :: r1, c2 :: r2 =>
      if c1 =? c2 then (if c1 =? 0 then 0 else strcmp r1 r2)
      else c1 - c2
  end.

(** [return strcmp((char * )(str1), str2);] *)
Definition SPI_strcmp (str1 str2 : list Z) : Z := strcmp str1 str2.

(** The chars of a string up to its terminator. *)
Fixpoint c_str (s : list Z) : list Z :=
  match s with
  | [] => []
  | c :: rest => if c =? 0 then [] else c :: c_str rest
  end.

(** The chars of a string literal. *)
Definition chars_of_string (s : string) : list Z :=
  map (fun a => Z.of_N (N_of_ascii a)) (list_ascii_of_string s).

(** ** Sessions of the receive path

    A state between two messages: the cursor at 0, no message pending, the
    counter at 0, both arrays of [cap] cells. *)
Definition quiescent (cap : Z) (st : state) : Prop :=
  dataIndex st = 0 /\ dataReceived st = false /\ receivedBytes st = 0 /\
  length (SPI_data st) = Z.to_nat cap /\ length (SPI_buffer st) = Z.to_nat cap.

(** A message arrives byte by byte with its terminator and the main loop
    then polls [SPI_readAll]. *)
Definition deliver (S : list Z) : list event :=
  map Recv S ++ [Recv DATA_END_CHAR; ReadAll].

Definition session (msgs : list (list Z)) : list event :=
  flat_map deliver msgs.

(** A message the receive path can frame: no terminator inside, shorter
    than the arrays. *)
Definition framable (cap : Z) (S : list Z) : Prop :=
  (DATA_END_CHAR ∉ S) /\ Z.of_nat (length S) < cap.

(** ** SPI_init

    The constants of [AVR_SPI_with_interrupts.h]. *)
Definition LSB_FIRST : Z := 0x20.
Definition MSB_FIRST : Z := 0x00.
Definition MASTER_MODE : Z := 1.
Definition SLAVE_MODE : Z := 0.
Definition SPI_MODE_0 : Z := 0x00.
Definition SPI_MODE_1 : Z := 0x04.
Definition SPI_MODE_2 : Z := 0x08.
Definition SPI_MODE_3 : Z := 0x0C.
Definition FOSC_MASK : Z := 0x03.
Definition FOSC_DIV4 : Z := 0x00.
Definition FOSC_DIV16 : Z := 0x01.
Definition FOSC_DIV64 : Z := 0x02.
Definition FOSC_DIV128 : Z := 0x03.
Definition FOSC_DIV2 : Z := 0x04.
Definition FOSC_DIV8 : Z := 0x05.
Definition FOSC_DIV32 : Z := 0x06.

(** The bit numbers the driver takes from [avr/io.h] and from
    [AVR_SPI_pin_defines.h]; they depend on the device. *)
Record avr_io := mkIo {
  MSTR : Z;
  SPIE : Z;
  SPE : Z;
  SS_PIN_PORTxn : Z;
  MOSI_PIN_PORTxn : Z;
  MISO_PIN_PORTxn : Z;
  SCK_PIN_PORTxn : Z
}.

(** The two devices of [AVR_SPI_pin_defines.h]: SS, MOSI, MISO, SCK are
    PB2..PB5 on the ATmega88 and PB4..PB7 on the ATmega32; both have SPIE,
    SPE, MSTR at bits 7, 6, 4 of SPCR. *)
Definition ATmega88 : avr_io := mkIo 4 7 6 2 3 4 5.
Definition ATmega32 : avr_io := mkIo 4 7 6 4 5 6 7.

(** Bit numbers of an 8-bit register, those of SPCR pairwise distinct, and
    MISO distinct from the three other pins. *)
Definition io_ok (io : avr_io) : Prop :=
  0 <= MSTR io < 8 /\ 0 <= SPIE io < 8 /\ 0 <= SPE io < 8 /\
  0 <= SS_PIN_PORTxn io < 8 /\ 0 <= MOSI_PIN_PORTxn io < 8 /\
  0 <= MISO_PIN_PORTxn io < 8 /\ 0 <= SCK_PIN_PORTxn io < 8 /\
  MSTR io <> SPIE io /\ MSTR io <> SPE io /\ SPIE io <> SPE io /\
  MISO_PIN_PORTxn io <> SS_PIN_PORTxn io /\
  MISO_PIN_PORTxn io <> MOSI_PIN_PORTxn io /\
  MISO_PIN_PORTxn io <> SCK_PIN_PORTxn io.

(** The registers [SPI_init] and the examples' [init] write, and the global
    interrupt flag that [sei()] sets. *)
Record regs := mkRegs {
  SPI_DDRx : Z;
  SPI_PORTx : Z;
  SPCR : Z;
  SPSR : Z;
  SREG_I : bool
}.

Definition set_SPI_DDRx (r : regs) (v : Z) : regs :=
  mkRegs v (SPI_PORTx r) (SPCR r) (SPSR r) (SREG_I r).
Definition set_SPI_PORTx (r : regs) (v : Z) : regs :=
  mkRegs (SPI_DDRx r) v (SPCR r) (SPSR r) (SREG_I r).
Definition set_SPCR (r : regs) (v : Z) : regs :=
  mkRegs (SPI_DDRx r) (SPI_PORTx r) v (SPSR r) (SREG_I r).
Definition set_SPSR (r : regs) (v : Z) : regs :=
  mkRegs (SPI_DDRx r) (SPI_PORTx r) (SPCR r) v (SREG_I r).
Definition set_SREG_I (r : regs) (v : bool) : regs :=
  mkRegs (SPI_DDRx r) (SPI_PORTx r) (SPCR r) (SPSR r) v.

(** [reg |= v] and [reg &= ~v] on an 8-bit register. *)
Definition or_eq (reg v : Z) : Z := to_uint8 (Z.lor reg v).
Definition and_not_eq (reg v : Z) : Z := to_uint8 (Z.land reg (Z.lnot v)).

Definition SPI_init (io : avr_io) (deviceMode dataOrder SPIMode clockRate : Z)
    (r : regs) : regs :=
  let r :=
    if deviceMode =? MASTER_MODE then
      let r := set_SPI_DDRx r
                 (or_eq (SPI_DDRx r)
                    (Z.lor (Z.lor (Z.shiftl 1 (SS_PIN_PORTxn io))
                                  (Z.shiftl 1 (MOSI_PIN_PORTxn io)))
                           (Z.shiftl 1 (SCK_PIN_PORTxn io)))) in
      let r := set_SPI_DDRx r
                 (and_not_eq (SPI_DDRx r) (Z.shiftl 1 (MISO_PIN_PORTxn io))) in
      let r := set_SPCR r (or_eq (SPCR r) (Z.shiftl 1 (MSTR io))) in
      let r := set_SPCR r (or_eq (SPCR r) (Z.land clockRate FOSC_MASK)) in
      set_SPSR r (or_eq (SPSR r) (Z.shiftr clockRate 2))
    else
      let r := set_SPI_DDRx r
                 (and_not_eq (SPI_DDRx r)
                    (Z.lor (Z.lor (Z.shiftl 1 (SS_PIN_PORTxn io))
                                  (Z.shiftl 1 (MOSI_PIN_PORTxn io)))
                           (Z.shiftl 1 (SCK_PIN_PORTxn io)))) in
      let r := set_SPI_DDRx r
                 (or_eq (SPI_DDRx r) (Z.shiftl 1 (MISO_PIN_PORTxn io))) in
      let r := set_SPCR r (and_not_eq (SPCR r) (Z.shiftl 1 (MSTR io))) in
      set_SPCR r (or_eq (SPCR r) (Z.shiftl 1 (SPIE io)))
  in
  set_SPCR r (or_eq (SPCR r)
                (Z.lor (Z.lor dataOrder SPIMode) (Z.shiftl 1 (SPE io)))).

(** ** The example programs

    [init] of the master examples:
    [SPI_init(MASTER_MODE, MSB_FIRST, SPI_MODE_0, FOSC_DIV16);
     SPI_PORTx |= (1 >> SS_PIN_PORTxn);  sei();] *)
Definition master_init (io : avr_io) (r : regs) : regs :=
  let r := SPI_init io MASTER_MODE MSB_FIRST SPI_MODE_0 FOSC_DIV16 r in
  let r := set_SPI_PORTx r (or_eq (SPI_PORTx r) (Z.shiftr 1 (SS_PIN_PORTxn io))) in
  set_SREG_I r true.

(** One turn of the main loop of the string slave:
    [if(SPI_readAll() == true)
       if(!SPI_strcmp(SPI_data, command)) LED_PORTx ^= (1 << LED_PORTxn);] *)
Definition slave_loop_body (command : list Z) (LED_PORTxn : Z)
    (c : state * Z) : result (state * Z) :=
  let* r := SPI_readAll (fst c) in
  if fst r then
    if SPI_strcmp (SPI_data (snd r)) command =? 0 then
      Ok (snd r, to_uint8 (Z.lxor (snd c) (Z.shiftl 1 LED_PORTxn)))
    else Ok (snd r, snd c)
  else Ok (snd r, snd c).

(** * Properties of the receive path *)

(** ** Array accesses inside an array *)

Lemma in_bounds_middle (pre : list Z) x post i :
  i = Z.of_nat (length pre) -> in_bounds (pre ++ x :: post) i = true.
Proof.
  intros ->. unfold in_bounds. rewrite length_app. cbn [length].
  apply andb_true_intro. split; [apply Z.leb_le | apply Z.ltb_lt]; lia.
Qed.

Lemma store_middle a (pre : list Z) x post i v :
  i = Z.of_nat (length pre) ->
  store a (pre ++ x :: post) i v = Ok (pre ++ v :: post).
Proof.
  intros Hi. unfold store. rewrite in_bounds_middle by done. subst i.
  rewrite Nat2Z.id. f_equal.
  replace (length pre) with (length pre + 0)%nat by lia.
  by rewrite insert_app_r.
Qed.

Lemma load_middle a (pre : list Z) x post i :
  i = Z.of_nat (length pre) ->
  load a (pre ++ x :: post) i = Ok x.
Proof.
  intros Hi. unfold load. rewrite in_bounds_middle by done. subst i.
  rewrite Nat2Z.id. by rewrite list_lookup_middle.
Qed.

Lemma store_fault a (arr : list Z) i v :
  Z.of_nat (length arr) <= i -> store a arr i v = Fault (OutOfBounds a i).
Proof.
  intros Hi. unfold store, in_bounds.
  replace (i <? Z.of_nat (length arr)) with false; [by rewrite andb_false_r |].
  symmetry. apply Z.ltb_ge. lia.
Qed.

Lemma load_fault a (arr : list Z) i :
  Z.of_nat (length arr) <= i -> load a arr i = Fault (OutOfBounds a i).
Proof.
  intros Hi. unfold load, in_bounds.
  replace (i <? Z.of_nat (length arr)) with false; [by rewrite andb_false_r |].
  symmetry. apply Z.ltb_ge. lia.
Qed.

(** A list splits around any of its positions. *)
Lemma split_at (arr : list Z) (n : nat) :
  (n < length arr)%nat ->
  exists pre x post, arr = pre ++ x :: post /\ length pre = n.
Proof.
  intros Hn. destruct (lookup_lt_is_Some_2 arr n Hn) as [x Hx].
  exists (take n arr), x, (drop (S n) arr). split.
  - by rewrite take_drop_middle.
  - rewrite length_take. lia.
Qed.

(** ** The loops *)

Lemma flush_loop_middle a (mid : list Z) : forall pre post i,
  i = Z.of_nat (length pre) ->
  flush_loop a (length mid) i (pre ++ mid ++ post)
  = Ok (pre ++ replicate (length mid) 0 ++ post).
Proof.
  induction mid as [|x mid IH]; intros pre post i Hi; [done |].
  cbn [length flush_loop app]. rewrite store_middle by done. cbn [bind].
  rewrite (cons_middle 0 pre), app_assoc.
  rewrite IH; [| rewrite length_app; cbn [length]; lia].
  by rewrite <- app_assoc.
Qed.

Lemma flushBuffer_prefix a (arr : list Z) (size : Z) :
  0 <= size <= Z.of_nat (length arr) ->
  flushBuffer a arr size
  = Ok (replicate (Z.to_nat size) 0 ++ drop (Z.to_nat size) arr).
Proof.
  intros Hs. unfold flushBuffer.
  assert (Hl : length (take (Z.to_nat size) arr) = Z.to_nat size)
    by (rewrite length_take; lia).
  pose proof (flush_loop_middle a (take (Z.to_nat size) arr) []
                (drop (Z.to_nat size) arr) 0 eq_refl) as H.
  cbn [app] in H. by rewrite take_drop, Hl in H.
Qed.

Lemma copy_loop_middle (S : list Z) : forall fuel pre tail dpre dmid dpost,
  DATA_END_CHAR ∉ S ->
  length dpre = length pre ->
  length dmid = length S ->
  (length S < fuel)%nat ->
  copy_loop fuel (Z.of_nat (length pre))
    (pre ++ S ++ DATA_END_CHAR :: tail) (dpre ++ dmid ++ dpost)
  = Ok (dpre ++ S ++ dpost).
Proof.
  induction S as [|b S IH]; intros fuel pre tail dpre dmid dpost Hno Hpre Hmid Hfuel.
  - destruct dmid; [| done]. destruct fuel; [cbn in Hfuel; lia |].
    cbn [copy_loop app]. rewrite load_middle by done. by cbn.
  - destruct dmid as [|d dmid]; [done |].
    destruct fuel; [cbn in Hfuel; lia |].
    apply not_elem_of_cons in Hno as [Hb Hno].
    cbn [copy_loop app]. rewrite load_middle by done. cbn [bind].
    replace (b =? DATA_END_CHAR) with false
      by (symmetry; apply Z.eqb_neq; congruence).
    cbn [negb]. rewrite store_middle by lia. cbn [bind].
    replace (Z.of_nat (length pre) + 1) with (Z.of_nat (length (pre ++ [b])))
      by (rewrite length_app; cbn [length]; lia).
    replace (pre ++ b :: S ++ DATA_END_CHAR :: tail)
      with ((pre ++ [b]) ++ S ++ DATA_END_CHAR :: tail)
      by (by rewrite <- app_assoc).
    replace (dpre ++ b :: dmid ++ dpost) with ((dpre ++ [b]) ++ dmid ++ dpost)
      by (by rewrite <- app_assoc).
    rewrite (IH fuel (pre ++ [b]) tail (dpre ++ [b]) dmid dpost); try done.
    + by rewrite <- app_assoc.
    + rewrite !length_app. cbn [length]. lia.
    + cbn [length] in Hmid. lia.
    + cbn [length] in Hfuel. lia.
Qed.

(** ** One invocation of the handler *)

Lemma ISR_SPI_STC_middle SPDR st pre x post :
  SPI_buffer st = pre ++ x :: post ->
  dataIndex st = Z.of_nat (length pre) ->
  ISR_SPI_STC SPDR st = Ok (ISR_post SPDR st (pre ++ SPDR :: post)).
Proof.
  intros Hbuf Hidx. unfold ISR_SPI_STC, ISR_post.
  rewrite Hbuf, store_middle by done. cbn [bind].
  cbn [set_SPI_buffer SPI_buffer dataIndex].
  rewrite load_middle by done. cbn [bind].
  by destruct (SPDR =? DATA_END_CHAR).
Qed.

Lemma ISR_SPI_STC_inside SPDR st :
  0 <= dataIndex st < Z.of_nat (length (SPI_buffer st)) ->
  ISR_SPI_STC SPDR st
  = Ok (ISR_post SPDR st (<[Z.to_nat (dataIndex st) := SPDR]> (SPI_buffer st))).
Proof.
  intros Hidx.
  destruct (split_at (SPI_buffer st) (Z.to_nat (dataIndex st)))
    as (pre & x & post & Hbuf & Hpre); [lia |].
  rewrite (ISR_SPI_STC_middle SPDR st pre x post) by (done || lia).
  do 2 f_equal. rewrite Hbuf.
  replace (Z.to_nat (dataIndex st)) with (length pre + 0)%nat by lia.
  by rewrite insert_app_r.
Qed.

Lemma ISR_SPI_STC_outside SPDR st :
  Z.of_nat (length (SPI_buffer st)) <= dataIndex st ->
  ISR_SPI_STC SPDR st = Fault (OutOfBounds ARR_SPI_buffer (dataIndex st)).
Proof.
  intros Hidx. unfold ISR_SPI_STC. by rewrite store_fault.
Qed.

Lemma run_ISR_app bytes1 bytes2 st :
  run_ISR (bytes1 ++ bytes2) st
  = let* st' := run_ISR bytes1 st in run_ISR bytes2 st'.
Proof.
  revert st. induction bytes1 as [|b bytes1 IH]; intros st; [done |].
  cbn [app run_ISR]. destruct (ISR_SPI_STC b st); cbn [bind]; [apply IH | done].
Qed.

Lemma to_size_t_succ x n :
  to_size_t (to_size_t (x + 1) + n) = to_size_t (x + (1 + n)).
Proof.
  unfold to_size_t. rewrite Zplus_mod_idemp_l. f_equal. lia.
Qed.

(** A run of payload bytes fills the cells after the cursor. *)
Lemma run_ISR_payload (S : list Z) : forall st pre mid post,
  DATA_END_CHAR ∉ S ->
  SPI_buffer st = pre ++ mid ++ post ->
  length mid = length S ->
  dataIndex st = Z.of_nat (length pre) ->
  Z.of_nat (length pre + length S) < 2 ^ 8 ->
  0 <= receivedBytes st < 2 ^ 16 ->
  run_ISR S st
  = Ok (mkState (SPI_data st) (pre ++ S ++ post)
          (Z.of_nat (length pre + length S)) (dataReceived st)
          (to_size_t (receivedBytes st + Z.of_nat (length S)))).
Proof.
  induction S as [|b S IH]; intros st pre mid post Hno Hbuf Hmid Hidx Hlt Hrb.
  - destruct mid; [| done]. destruct st as [d bf i f r]. cbn in *. subst.
    rewrite Nat.add_0_r, Z.add_0_r. unfold to_size_t.
    by rewrite Z.mod_small.
  - destruct mid as [|x mid]; [done |].
    apply not_elem_of_cons in Hno as [Hb Hno].
    cbn [run_ISR]. rewrite (ISR_SPI_STC_middle b st pre x (mid ++ post)) by done.
    cbn [bind]. unfold ISR_post.
    replace (b =? DATA_END_CHAR) with false
      by (symmetry; apply Z.eqb_neq; congruence).
    cbn [length] in Hlt, Hmid.
    rewrite (IH _ (pre ++ [b]) mid post); cbn [SPI_buffer SPI_data dataIndex
      dataReceived receivedBytes]; try done.
    + rewrite <- app_assoc, to_size_t_succ. cbn [app length].
      do 2 f_equal; rewrite ?length_app; cbn [length]; try lia.
      f_equal. lia.
    + by rewrite <- app_assoc.
    + lia.
    + unfold to_uint8. rewrite Z.mod_small; rewrite ?length_app; cbn [length]; lia.
    + rewrite length_app. cbn [length]. lia.
    + unfold to_size_t. apply Z.mod_pos_bound. lia.
Qed.

(** ** The fuel of the [while] loop

    The loop either meets a terminator cell or leaves the array within
    [length buffer + 1] tests, so the fuel [SPI_readAll] passes is never
    exhausted: its only faults are accesses outside an array. *)

Lemma store_fault_inv a (arr : list Z) i v f :
  store a arr i v = Fault f -> f = OutOfBounds a i.
Proof.
  unfold store. destruct (in_bounds arr i); [done |]. by intros [= <-].
Qed.

Lemma load_fault_inv a (arr : list Z) i f :
  load a arr i = Fault f -> f = OutOfBounds a i.
Proof.
  unfold load. destruct (in_bounds arr i); [| by intros [= <-]].
  destruct (arr !! Z.to_nat i); [done | by intros [= <-]].
Qed.

Lemma flush_loop_fault_inv a (n : nat) : forall i arr f,
  flush_loop a n i arr = Fault f -> exists j, f = OutOfBounds a j.
Proof.
  induction n as [|n IH]; intros i arr f H; cbn [flush_loop] in H; [done |].
  destruct (store a arr i 0) as [arr' | f'] eqn:Hstore; cbn [bind] in H.
  - by apply (IH _ _ _ H).
  - injection H as <-. exists i. by apply (store_fault_inv _ _ _ _ _ Hstore).
Qed.

Lemma copy_loop_fault_inv (fuel : nat) : forall i buffer data f,
  0 <= i <= Z.of_nat (length buffer) ->
  Z.of_nat (length buffer) < Z.of_nat fuel + i ->
  copy_loop fuel i buffer data = Fault f -> exists a j, f = OutOfBounds a j.
Proof.
  induction fuel as [|fuel IH]; intros i buffer data f Hi Hfuel H; [lia |].
  cbn [copy_loop] in H.
  destruct (load ARR_SPI_buffer buffer i) as [c | f'] eqn:Hload; cbn [bind] in H.
  - assert (Hin : i < Z.of_nat (length buffer)).
    { destruct (Z.lt_ge_cases i (Z.of_nat (length buffer))); [done |].
      by rewrite load_fault in Hload by lia. }
    destruct (negb (c =? DATA_END_CHAR)); [| done].
    destruct (store ARR_SPI_data data i c) as [d1 | f'] eqn:Hstore;
      cbn [bind] in H.
    + apply (IH (i + 1) buffer d1 f); [lia | lia | done].
    + injection H as <-. eexists _, _. by apply (store_fault_inv _ _ _ _ _ Hstore).
  - injection H as <-. eexists _, _. by apply (load_fault_inv _ _ _ _ Hload).
Qed.

Lemma SPI_readAll_fuel_suffices st : SPI_readAll st <> Fault OutOfFuel.
Proof.
  unfold SPI_readAll, flushBuffer. destruct (dataReceived st); [| done].
  destruct (flush_loop ARR_SPI_data _ _ _) as [d1 | f] eqn:H1; cbn [bind].
  - destruct (copy_loop _ _ _ _) as [d2 | f] eqn:H2; cbn [bind].
    + destruct (flush_loop ARR_SPI_buffer _ _ _) as [b1 | f] eqn:H3; cbn [bind];
        [done |].
      destruct (flush_loop_fault_inv _ _ _ _ _ H3) as [j ->]. done.
    + apply copy_loop_fault_inv in H2 as (a & j & ->); [done | lia | lia].
  - destruct (flush_loop_fault_inv _ _ _ _ _ H1) as [j ->]. done.
Qed.

(** ** The hand-off when exactly one framed message is pending *)

Lemma SPI_readAll_framed st (S tail : list Z) :
  dataReceived st = true ->
  SPI_buffer st = S ++ DATA_END_CHAR :: tail ->
  DATA_END_CHAR ∉ S ->
  receivedBytes st = Z.of_nat (length S) ->
  (length S <= length (SPI_data st))%nat ->
  SPI_readAll st
  = Ok (true,
        mkState (S ++ drop (length S) (SPI_data st))
                (replicate (length S) 0 ++ DATA_END_CHAR :: tail)
                (dataIndex st) false 0).
Proof.
  intros Hflag Hbuf Hno Hrb Hlen. unfold SPI_readAll.
  change (flush_loop ARR_SPI_buffer (Z.to_nat (receivedBytes st)) 0 (SPI_buffer st))
    with (flushBuffer ARR_SPI_buffer (SPI_buffer st) (receivedBytes st)).
  rewrite Hflag, Hrb, !flushBuffer_prefix, Nat2Z.id; cbn [bind].
  - pose proof (copy_loop_middle S (Datatypes.S (length (SPI_buffer st))) [] tail
                  [] (replicate (length S) 0) (drop (length S) (SPI_data st)))
      as Hcopy.
    cbn [app length] in Hcopy. change (Z.of_nat 0) with 0 in Hcopy.
    rewrite <- Hbuf in Hcopy.
    rewrite Hcopy; cbn [bind]; try done.
    + unfold set_receivedBytes, set_dataReceived, set_SPI_buffer, set_SPI_data.
      cbn [SPI_data SPI_buffer dataIndex dataReceived receivedBytes].
      by rewrite Hbuf, drop_app_length.
    + by rewrite length_replicate.
    + rewrite Hbuf, length_app. cbn [length]. lia.
  - rewrite Hbuf, length_app. cbn [length]. lia.
  - lia.
Qed.

Lemma SPI_readAll_idle st :
  dataReceived st = false -> SPI_readAll st = Ok (false, st).
Proof. intros H. unfold SPI_readAll. by rewrite H. Qed.

(** The receive path after a whole message [S] arrived in the initial state. *)
Lemma run_ISR_message (cap : Z) (S : list Z) :
  cap <= 2 ^ 8 ->
  Z.of_nat (length S) < cap ->
  DATA_END_CHAR ∉ S ->
  run_ISR (S ++ [DATA_END_CHAR]) (init_state cap)
  = Ok (mkState (replicate (Z.to_nat cap) 0)
          (S ++ DATA_END_CHAR :: replicate (Z.to_nat cap - length S - 1) 0)
          0 true (Z.of_nat (length S))).
Proof.
  intros Hcap Hlen Hno. rewrite run_ISR_app.
  set (k := (Z.to_nat cap - length S - 1)%nat).
  assert (Hk : Z.to_nat cap = (length S + Datatypes.S k)%nat) by lia.
  rewrite (run_ISR_payload S (init_state cap) [] (replicate (length S) 0)
             (replicate (Datatypes.S k) 0));
    cbn [init_state SPI_buffer SPI_data dataIndex dataReceived receivedBytes
         app length]; try done; try lia.
  - cbn [bind run_ISR]. rewrite replicate_S.
    rewrite (ISR_SPI_STC_middle _ _ S 0 (replicate k 0));
      cbn [SPI_buffer dataIndex]; try done.
    cbn [bind]. unfold ISR_post. rewrite Z.eqb_refl.
    cbn [SPI_data receivedBytes]. do 2 f_equal.
    unfold to_size_t. rewrite Z.mod_small; lia.
  - by rewrite Hk, replicate_add.
  - by rewrite length_replicate.
Qed.

(** C1.  For every byte sequence [S] without a terminator byte and shorter
    than the capacity, delivering [S] and one terminator to the handler,
    starting from the zeroed initial state, and then calling [SPI_readAll]
    returns true with [SPI_data] holding exactly [S] (followed by zeroes up
    to the capacity); a second call made right after returns false and
    leaves [SPI_data] as it is.  The cursor is a [uint8_t], hence the bound
    on the capacity. *)
Theorem C1_frame_then_read_once (cap : Z) (S : list Z) :
  cap <= 2 ^ 8 ->
  Z.of_nat (length S) < cap ->
  DATA_END_CHAR ∉ S ->
  exists st1 st2,
    run_ISR (S ++ [DATA_END_CHAR]) (init_state cap) = Ok st1 /\
    SPI_readAll st1 = Ok (true, st2) /\
    SPI_data st2 = S ++ replicate (Z.to_nat cap - length S) 0 /\
    SPI_readAll st2 = Ok (false, st2).
Proof.
  intros Hcap Hlen Hno. eexists _, _. split; [by apply run_ISR_message |].
  split; [| split].
  - apply SPI_readAll_framed; cbn [dataReceived SPI_buffer receivedBytes SPI_data];
      try done.
    rewrite length_replicate. lia.
  - cbn [SPI_data]. by rewrite drop_replicate.
  - by apply SPI_readAll_idle.
Qed.

Lemma C1_frame_then_read_once_witness :
  exists st1 st2,
    run_ISR ([84; 79; 71; 71; 76; 69] ++ [DATA_END_CHAR]) (init_state DATA_LENGTH)
      = Ok st1 /\
    SPI_readAll st1 = Ok (true, st2) /\
    SPI_data st2
      = [84; 79; 71; 71; 76; 69] ++ replicate (Z.to_nat DATA_LENGTH - 6) 0 /\
    SPI_readAll st2 = Ok (false, st2).
Proof.
  apply (C1_frame_then_read_once DATA_LENGTH [84; 79; 71; 71; 76; 69]).
  - vm_compute. discriminate.
  - vm_compute. reflexivity.
  - unfold DATA_END_CHAR. rewrite !not_elem_of_cons. repeat split; try lia.
    apply not_elem_of_nil.
Defined.

(** C4 as the specification words it fails on a terminator: the handler
    stores the terminator at the cursor before it tests it, so the cell
    under the cursor changes, and the transition of the specification,
    which leaves the buffer alone, is not the handler's. *)
Lemma C4_counterexample :
  exists st',
    ISR_SPI_STC DATA_END_CHAR (init_state DATA_LENGTH) = Ok st' /\
    SPI_buffer st' !! 0%nat = Some DATA_END_CHAR /\
    SPI_buffer (init_state DATA_LENGTH) !! 0%nat = Some 0 /\
    st' <> framer_as_specified DATA_END_CHAR (init_state DATA_LENGTH).
Proof.
  eexists. split; [vm_compute; reflexivity |].
  split; [reflexivity |]. split; [reflexivity |].
  vm_compute. discriminate.
Qed.

(** C4, amended.  With the cursor inside the working buffer, every
    invocation of the handler stores the received byte at
    [SPI_buffer[dataIndex]], the terminator included, and leaves every
    other cell and [SPI_data] alone.  For the terminator it then raises
    [dataReceived] and resets [dataIndex] to 0, keeping [receivedBytes];
    for any other byte it increments [dataIndex] (modulo 2^8) and
    [receivedBytes] (modulo 2^16), keeping [dataReceived]. *)
Theorem C4_handler_transition (SPDR : Z) (st : state) :
  0 <= dataIndex st < Z.of_nat (length (SPI_buffer st)) ->
  exists st',
    ISR_SPI_STC SPDR st = Ok st' /\
    SPI_buffer st' !! Z.to_nat (dataIndex st) = Some SPDR /\
    (forall j, j <> Z.to_nat (dataIndex st) ->
               SPI_buffer st' !! j = SPI_buffer st !! j) /\
    length (SPI_buffer st') = length (SPI_buffer st) /\
    SPI_data st' = SPI_data st /\
    (SPDR = DATA_END_CHAR ->
       dataReceived st' = true /\ dataIndex st' = 0 /\
       receivedBytes st' = receivedBytes st) /\
    (SPDR <> DATA_END_CHAR ->
       dataReceived st' = dataReceived st /\
       dataIndex st' = (dataIndex st + 1) mod 2 ^ 8 /\
       receivedBytes st' = (receivedBytes st + 1) mod 2 ^ 16).
Proof.
  intros Hidx. eexists. split; [by apply ISR_SPI_STC_inside |].
  unfold ISR_post.
  destruct (Z.eqb_spec SPDR DATA_END_CHAR) as [He | Hne];
    cbn [SPI_buffer SPI_data dataReceived dataIndex receivedBytes].
  - split; [apply list_lookup_insert_eq; lia |].
    split; [intros j Hj; by apply list_lookup_insert_ne |].
    split; [apply length_insert |]. by repeat split.
  - split; [apply list_lookup_insert_eq; lia |].
    split; [intros j Hj; by apply list_lookup_insert_ne |].
    split; [apply length_insert |]. by repeat split.
Qed.

Lemma C4_handler_transition_witness :
  exists st',
    ISR_SPI_STC 84 (init_state DATA_LENGTH) = Ok st' /\
    SPI_buffer st' !! Z.to_nat (dataIndex (init_state DATA_LENGTH)) = Some 84 /\
    (forall j, j <> Z.to_nat (dataIndex (init_state DATA_LENGTH)) ->
               SPI_buffer st' !! j = SPI_buffer (init_state DATA_LENGTH) !! j) /\
    length (SPI_buffer st') = length (SPI_buffer (init_state DATA_LENGTH)) /\
    SPI_data st' = SPI_data (init_state DATA_LENGTH) /\
    (84 = DATA_END_CHAR ->
       dataReceived st' = true /\ dataIndex st' = 0 /\
       receivedBytes st' = receivedBytes (init_state DATA_LENGTH)) /\
    (84 <> DATA_END_CHAR ->
       dataReceived st' = dataReceived (init_state DATA_LENGTH) /\
       dataIndex st' = (dataIndex (init_state DATA_LENGTH) + 1) mod 2 ^ 8 /\
       receivedBytes st'
       = (receivedBytes (init_state DATA_LENGTH) + 1) mod 2 ^ 16).
Proof.
  apply (C4_handler_transition 84 (init_state DATA_LENGTH)).
  vm_compute. split; [discriminate | reflexivity].
Defined.

(** ** Runs of the handler and the open frame *)

Lemma run_ISR_snoc bytes b st :
  run_ISR (bytes ++ [b]) st
  = let* st' := run_ISR bytes st in ISR_SPI_STC b st'.
Proof.
  rewrite run_ISR_app. destruct (run_ISR bytes st) as [st' |]; cbn [bind run_ISR];
    [| done].
  by destruct (ISR_SPI_STC b st').
Qed.

Lemma open_frame_from_snoc bytes : forall cur x,
  open_frame_from cur (bytes ++ [x])
  = if x =? DATA_END_CHAR then [] else open_frame_from cur bytes ++ [x].
Proof.
  induction bytes as [|b bytes IH]; intros cur x; cbn [app open_frame_from];
    [done | apply IH].
Qed.

Lemma open_frame_snoc bytes x :
  open_frame (bytes ++ [x])
  = if x =? DATA_END_CHAR then [] else open_frame bytes ++ [x].
Proof. apply open_frame_from_snoc. Qed.

Lemma frames_fit_snoc cap bytes x :
  frames_fit cap (bytes ++ [x]) ->
  frames_fit cap bytes /\ Z.of_nat (length (open_frame bytes)) < cap.
Proof.
  intros Hfit. split.
  - intros p y s ->. apply (Hfit p y (s ++ [x])). by rewrite <- app_assoc.
  - by apply (Hfit bytes x []).
Qed.

(** While the frames fit, the cursor is the length of the open frame and
    nothing but the working buffer, the cursor, the flag and the counter
    is touched. *)
Lemma run_ISR_fit (cap : Z) (bytes : list Z) :
  cap <= 2 ^ 8 ->
  frames_fit cap bytes ->
  exists st,
    run_ISR bytes (init_state cap) = Ok st /\
    length (SPI_buffer st) = Z.to_nat cap /\
    SPI_data st = replicate (Z.to_nat cap) 0 /\
    dataIndex st = to_uint8 (Z.of_nat (length (open_frame bytes))).
Proof.
  intros Hcap. induction bytes as [|x bytes IH] using rev_ind; intros Hfit.
  - eexists. split; [done |]. cbn. by rewrite length_replicate.
  - apply frames_fit_snoc in Hfit as [Hfit Hlt].
    destruct (IH Hfit) as (st & Hrun & Hlen & Hdata & Hidx).
    unfold to_uint8 in Hidx. rewrite Z.mod_small in Hidx by lia.
    rewrite run_ISR_snoc, Hrun. cbn [bind].
    rewrite ISR_SPI_STC_inside by lia. eexists. split; [done |].
    rewrite open_frame_snoc. unfold ISR_post.
    destruct (x =? DATA_END_CHAR);
      cbn [SPI_buffer SPI_data dataIndex]; rewrite length_insert.
    + done.
    + repeat split; try done. rewrite Hidx, length_app. cbn [length].
      f_equal. lia.
Qed.

(** No bound is checked: the byte that arrives while [cap] payload bytes
    are pending is stored at index [cap]. *)
Lemma run_ISR_overrun (cap : Z) (S : list Z) (x : Z) :
  0 <= cap < 2 ^ 8 ->
  DATA_END_CHAR ∉ S ->
  Z.of_nat (length S) = cap ->
  run_ISR (S ++ [x]) (init_state cap)
  = Fault (OutOfBounds ARR_SPI_buffer cap).
Proof.
  intros Hcap Hno Hlen. rewrite run_ISR_snoc.
  rewrite (run_ISR_payload S (init_state cap) [] (replicate (length S) 0) []);
    cbn [init_state SPI_buffer SPI_data dataIndex dataReceived receivedBytes
         app length]; try done; try lia.
  - cbn [bind]. rewrite ISR_SPI_STC_outside; cbn [SPI_buffer dataIndex].
    + do 2 f_equal. lia.
    + rewrite app_nil_r. lia.
  - rewrite app_nil_r. f_equal. lia.
  - by rewrite length_replicate.
Qed.

(** C3 as stated fails: with a capacity of 5, the sixth of ten bytes none
    of which is a terminator is stored at index 5, outside the working
    buffer; the handler checks no bound. *)
Lemma C3_counterexample :
  (DATA_END_CHAR ∉ [1; 2; 3; 4; 5; 6; 7; 8; 9; 10]) /\
  run_ISR ([1; 2; 3; 4; 5; 6; 7; 8; 9; 10] ++ [DATA_END_CHAR]) (init_state 5)
  = Fault (OutOfBounds ARR_SPI_buffer 5).
Proof.
  split; [| vm_compute; reflexivity].
  unfold DATA_END_CHAR. rewrite !not_elem_of_cons.
  repeat split; try lia. apply not_elem_of_nil.
Qed.

(** C3, amended.  The handler checks no bound; it stays inside the working
    buffer on every sequence of received bytes in which each byte arrives
    while fewer than the capacity payload bytes are pending in the open
    frame (the capacity being at most 2^8, the range of the cursor): every
    store is then inside the array, whose size never changes. *)
Theorem C3_handler_stays_inside (cap : Z) (bytes : list Z) :
  cap <= 2 ^ 8 ->
  frames_fit cap bytes ->
  exists st,
    run_ISR bytes (init_state cap) = Ok st /\
    length (SPI_buffer st) = Z.to_nat cap /\
    dataIndex st = Z.of_nat (length (open_frame bytes)) mod 2 ^ 8.
Proof.
  intros Hcap Hfit.
  destruct (run_ISR_fit cap bytes Hcap Hfit) as (st & Hrun & Hlen & _ & Hidx).
  by exists st.
Qed.

Lemma C3_handler_stays_inside_witness :
  exists st,
    run_ISR [1; 2; 3; 4; 13; 5; 6; 13; 7] (init_state 5) = Ok st /\
    length (SPI_buffer st) = Z.to_nat 5 /\
    dataIndex st
    = Z.of_nat (length (open_frame [1; 2; 3; 4; 13; 5; 6; 13; 7])) mod 2 ^ 8.
Proof.
  apply (C3_handler_stays_inside 5 [1; 2; 3; 4; 13; 5; 6; 13; 7]).
  - vm_compute. discriminate.
  - intros p x s H.
    do 10 (destruct p as [|? p];
           [vm_compute; reflexivity
           | cbn [app] in H; try discriminate H; injection H as <- H]).
Defined.

(** ** Interleavings of whole calls *)

Lemma run_snoc evs e st :
  run (evs ++ [e]) st = let* st' := run evs st in exec e st'.
Proof.
  revert st. induction evs as [|e0 evs IH]; intros st; cbn [app run].
  - cbn [bind]. by destruct (exec e st).
  - destruct (exec e0 st); cbn [bind]; [apply IH | done].
Qed.

Lemma unread_from_snoc evs : forall acc e,
  unread_from acc (evs ++ [e])
  = match e with
    | Recv b => unread_from acc evs ++ [b]
    | ReadAll =>
        if existsb is_end (unread_from acc evs) then []
        else unread_from acc evs
    end.
Proof.
  induction evs as [|e0 evs IH]; intros acc e; cbn [app unread_from].
  - by destruct e.
  - destruct e0; apply IH.
Qed.

Lemma payload_count_snoc bytes b :
  payload_count (bytes ++ [b])
  = payload_count bytes + (if is_end b then 0 else 1).
Proof.
  unfold payload_count. rewrite List.filter_app, length_app. cbn [List.filter].
  destruct (is_end b); cbn [negb length]; lia.
Qed.

Lemma ISR_SPI_STC_Ok_inv SPDR st st' :
  ISR_SPI_STC SPDR st = Ok st' ->
  st' = ISR_post SPDR st (<[Z.to_nat (dataIndex st) := SPDR]> (SPI_buffer st)).
Proof.
  intros H.
  destruct (in_bounds (SPI_buffer st) (dataIndex st)) eqn:Hin.
  - unfold in_bounds in Hin. apply andb_true_iff in Hin as [H0 H1].
    apply Z.leb_le in H0. apply Z.ltb_lt in H1.
    rewrite ISR_SPI_STC_inside in H by lia. congruence.
  - unfold ISR_SPI_STC, store in H. by rewrite Hin in H.
Qed.

Lemma SPI_readAll_swap_inv st r st' :
  dataReceived st = true ->
  SPI_readAll st = Ok (r, st') ->
  r = true /\ dataReceived st' = false /\ receivedBytes st' = 0 /\
  dataIndex st' = dataIndex st.
Proof.
  intros Hflag H. unfold SPI_readAll in H. rewrite Hflag in H.
  destruct (flushBuffer ARR_SPI_data _ _) as [d1 |]; cbn [bind] in H; [| done].
  destruct (copy_loop _ _ _ _) as [d2 |]; cbn [bind] in H; [| done].
  destruct (flush_loop ARR_SPI_buffer _ _ _) as [b1 |]; cbn [bind] in H; [| done].
  by injection H as <- <-.
Qed.

(** The counter and the flag in every state the two routines can reach. *)
Lemma run_counts (cap : Z) (evs : list event) : forall st,
  run evs (init_state cap) = Ok st ->
  receivedBytes st = to_size_t (payload_count (unread evs)) /\
  dataReceived st = existsb is_end (unread evs).
Proof.
  induction evs as [|e evs IH] using rev_ind; intros st Hrun.
  - injection Hrun as <-. by cbn.
  - rewrite run_snoc in Hrun.
    destruct (run evs (init_state cap)) as [st0 |]; cbn [bind] in Hrun; [| done].
    destruct (IH st0 eq_refl) as [Hrb Hflag].
    unfold unread in *. rewrite unread_from_snoc.
    destruct e as [b |]; cbn [exec] in Hrun.
    + apply ISR_SPI_STC_Ok_inv in Hrun as ->.
      rewrite payload_count_snoc, existsb_app. cbn [existsb].
      unfold ISR_post. fold (is_end b).
      destruct (is_end b); cbn [receivedBytes dataReceived].
      * rewrite Z.add_0_r, orb_true_r. done.
      * rewrite Hrb, Hflag, !orb_false_r. split; [| done].
        unfold to_size_t. by rewrite Zplus_mod_idemp_l.
    + destruct (SPI_readAll st0) as [[r st1] |] eqn:Hread; cbn [bind snd] in Hrun;
        [| done].
      injection Hrun as ->. rewrite <- Hflag.
      destruct (dataReceived st0) eqn:Hf.
      * destruct (SPI_readAll_swap_inv _ _ _ Hf Hread) as (_ & Hf' & Hrb' & _).
        by rewrite Hf', Hrb'.
      * rewrite SPI_readAll_idle in Hread by done. injection Hread as _ <-.
        by rewrite Hf.
Qed.




(** C2.  Evaluation of the code where it departs from the claim.  After
    the message ABCD has been taken over, the shorter message XY arrives.
    [SPI_readAll] flushes [receivedBytes] = 2 cells of [SPI_data], not the
    array, and the bytes C and D of the previous message stay behind the
    new one. *)
Theorem C2_stale_bytes_survive_swap :
  exists st st',
    run [Recv 65; Recv 66; Recv 67; Recv 68; Recv DATA_END_CHAR; ReadAll;
         Recv 88; Recv 89; Recv DATA_END_CHAR] (init_state DATA_LENGTH) = Ok st /\
    dataReceived st = true /\
    SPI_readAll st = Ok (true, st') /\
    SPI_data st' = [88; 89; 67; 68] ++ replicate (Z.to_nat DATA_LENGTH - 4) 0 /\
    SPI_data st' <> [88; 89] ++ replicate (Z.to_nat DATA_LENGTH - 2) 0.
Proof.
  eexists _, _. split; [vm_compute; reflexivity |].
  split; [reflexivity |]. split; [vm_compute; reflexivity |].
  split; [vm_compute; reflexivity | vm_compute; discriminate].
Qed.

(** ** SPI_readAll statement by statement *)

Lemma run_machine_app s1 s2 c :
  run_machine (s1 ++ s2) c
  = let* c' := run_machine s1 c in run_machine s2 c'.
Proof.
  revert c. induction s1 as [|a s1 IH]; intros c; cbn [app run_machine bind];
    [done |].
  destruct (machine_step a c); cbn [bind]; [apply IH | done].
Qed.

Lemma run_machine_Irq bytes : forall pc st,
  run_machine (map Irq bytes) (pc, st)
  = let* st' := run_ISR bytes st in Ok (pc, st').
Proof.
  induction bytes as [|b bytes IH]; intros pc st; [done |].
  cbn [map run_machine run_ISR machine_step fst snd].
  destruct (ISR_SPI_STC b st) as [st1 |]; cbn [bind]; [apply IH | done].
Qed.

Lemma run_machine_Fg_S n c :
  run_machine (repeat Fg (S n)) c
  = let* c' := fg_step (fst c) (snd c) in run_machine (repeat Fg n) c'.
Proof. done. Qed.

Lemma run_machine_seq s1 s2 c c' :
  run_machine s1 c = Ok c' ->
  run_machine (s1 ++ s2) c = run_machine s2 c'.
Proof. intros H. by rewrite run_machine_app, H. Qed.

Lemma run_machine_fault s1 s2 c f :
  run_machine s1 c = Fault f -> run_machine (s1 ++ s2) c = Fault f.
Proof. intros H. by rewrite run_machine_app, H. Qed.

(** Once the call has returned, the foreground is elsewhere. *)
Lemma run_machine_returned k r st :
  run_machine (repeat Fg k) (L_return r, st) = Ok (L_return r, st).
Proof. induction k as [|k IH]; [done | by rewrite run_machine_Fg_S]. Qed.

Lemma set_SPI_data_id st : set_SPI_data st (SPI_data st) = st.
Proof. by destruct st. Qed.

Lemma set_SPI_buffer_id st : set_SPI_buffer st (SPI_buffer st) = st.
Proof. by destruct st. Qed.

(** The loop of [flushBuffer] on [SPI_data]. *)
Lemma fg_flush_loop (size : Z) (n : nat) : forall i st,
  Z.of_nat n = Z.max 0 (size - i) ->
  run_machine (repeat Fg (S n)) (L_flush i size, st)
  = let* data := flush_loop ARR_SPI_data n i (SPI_data st) in
    Ok (L_copy_test 0, set_SPI_data st data).
Proof.
  induction n as [|n IH]; intros i st Hn;
    rewrite run_machine_Fg_S; cbn [fst snd fg_step flush_loop].
  - replace (i <? size) with false by (symmetry; apply Z.ltb_ge; lia).
    cbn [bind run_machine repeat]. by rewrite set_SPI_data_id.
  - replace (i <? size) with true by (symmetry; apply Z.ltb_lt; lia).
    destruct (store ARR_SPI_data (SPI_data st) i 0) as [d1 |]; cbn [bind];
      [| done].
    rewrite (IH (i + 1) (set_SPI_data st d1)) by lia.
    cbn [set_SPI_data SPI_data].
    by destruct (flush_loop ARR_SPI_data n (i + 1) d1).
Qed.

(** The [while] loop, for any fuel that covers the rest of the array. *)
Lemma fg_copy_loop (fuel : nat) : forall i st,
  0 <= i <= Z.of_nat (length (SPI_buffer st)) ->
  Z.of_nat (length (SPI_buffer st)) < Z.of_nat fuel + i ->
  exists n,
    run_machine (repeat Fg n) (L_copy_test i, st)
    = let* data := copy_loop fuel i (SPI_buffer st) (SPI_data st) in
      Ok (L_clear 0, set_SPI_data st data).
Proof.
  induction fuel as [|fuel IH]; intros i st Hi Hfuel; [lia |].
  cbn [copy_loop].
  destruct (load ARR_SPI_buffer (SPI_buffer st) i) as [c | f] eqn:Hload.
  - assert (Hin : i < Z.of_nat (length (SPI_buffer st))).
    { destruct (Z.lt_ge_cases i (Z.of_nat (length (SPI_buffer st)))); [done |].
      by rewrite load_fault in Hload by lia. }
    cbn [bind]. destruct (negb (c =? DATA_END_CHAR)) eqn:Hc.
    + destruct (store ARR_SPI_data (SPI_data st) i c) as [d1 | f] eqn:Hstore;
        cbn [bind].
      * destruct (IH (i + 1) (set_SPI_data st d1)) as [n Hn];
          [cbn [set_SPI_data SPI_buffer]; lia .. |].
        exists (S (S n)). rewrite run_machine_Fg_S. cbn [fst snd fg_step].
        rewrite Hload. cbn [bind]. rewrite Hc. cbn [bind].
        rewrite run_machine_Fg_S. cbn [fst snd fg_step].
        rewrite Hload. cbn [bind]. rewrite Hstore. cbn [bind]. rewrite Hn.
        cbn [set_SPI_data SPI_data SPI_buffer].
        by destruct (copy_loop fuel (i + 1) (SPI_buffer st) d1).
      * exists 2%nat. rewrite run_machine_Fg_S. cbn [fst snd fg_step].
        rewrite Hload. cbn [bind]. rewrite Hc. cbn [bind].
        rewrite run_machine_Fg_S. cbn [fst snd fg_step].
        rewrite Hload. cbn [bind]. by rewrite Hstore.
    + exists 1%nat. rewrite run_machine_Fg_S. cbn [fst snd fg_step].
      rewrite Hload. cbn [bind]. rewrite Hc. cbn [bind run_machine repeat].
      by rewrite set_SPI_data_id.
  - exists 1%nat. rewrite run_machine_Fg_S. cbn [fst snd fg_step].
    by rewrite Hload.
Qed.

(** The last [for] loop, which clears the working buffer. *)
Lemma fg_clear_loop (n : nat) : forall i st,
  Z.of_nat n = Z.max 0 (receivedBytes st - i) ->
  run_machine (repeat Fg (S n)) (L_clear i, st)
  = let* buf := flush_loop ARR_SPI_buffer n i (SPI_buffer st) in
    Ok (L_flag, set_SPI_buffer st buf).
Proof.
  induction n as [|n IH]; intros i st Hn;
    rewrite run_machine_Fg_S; cbn [fst snd fg_step flush_loop].
  - replace (i <? receivedBytes st) with false
      by (symmetry; apply Z.ltb_ge; lia).
    cbn [bind run_machine repeat]. by rewrite set_SPI_buffer_id.
  - replace (i <? receivedBytes st) with true
      by (symmetry; apply Z.ltb_lt; lia).
    destruct (store ARR_SPI_buffer (SPI_buffer st) i 0) as [b1 |]; cbn [bind];
      [| done].
    rewrite (IH (i + 1) (set_SPI_buffer st b1))
      by (cbn [set_SPI_buffer receivedBytes]; lia).
    cbn [set_SPI_buffer SPI_buffer].
    by destruct (flush_loop ARR_SPI_buffer n (i + 1) b1).
Qed.

(** Left alone, the statements of [SPI_readAll] compute [SPI_readAll],
    faults included. *)
Lemma fg_refines_SPI_readAll st :
  exists n,
    run_machine (repeat Fg n) (L_test, st)
    = let* r := SPI_readAll st in Ok (L_return (fst r), snd r).
Proof.
  unfold SPI_readAll. destruct (dataReceived st) eqn:Hflag.
  - pose proof (fg_flush_loop (receivedBytes st) (Z.to_nat (receivedBytes st))
                  0 st ltac:(lia)) as Hflush.
    unfold flushBuffer.
    destruct (flush_loop ARR_SPI_data _ _ _) as [d1 | f]; cbn [bind] in *.
    + destruct (fg_copy_loop (S (length (SPI_buffer st))) 0 (set_SPI_data st d1))
        as [n2 Hcopy]; [cbn [set_SPI_data SPI_buffer]; lia .. |].
      cbn [set_SPI_data SPI_data SPI_buffer] in Hcopy.
      destruct (copy_loop _ _ _ _) as [d2 | f]; cbn [bind] in *.
      * pose proof (fg_clear_loop (Z.to_nat (receivedBytes st)) 0
                      (mkState d2 (SPI_buffer st) (dataIndex st)
                         (dataReceived st) (receivedBytes st))
                      ltac:(cbn [receivedBytes]; lia)) as Hclear.
        cbn [SPI_buffer] in Hclear.
        destruct (flush_loop ARR_SPI_buffer _ _ _) as [b1 | f]; cbn [bind] in *.
        -- exists (2 + (S (Z.to_nat (receivedBytes st))
                        + (n2 + (S (Z.to_nat (receivedBytes st)) + 2))))%nat.
           rewrite !repeat_app.
           erewrite run_machine_seq; [| cbn; rewrite Hflag; reflexivity].
           erewrite run_machine_seq; [| exact Hflush].
           erewrite run_machine_seq; [| exact Hcopy].
           erewrite run_machine_seq; [| exact Hclear].
           done.
        -- exists (2 + (S (Z.to_nat (receivedBytes st))
                        + (n2 + S (Z.to_nat (receivedBytes st)))))%nat.
           rewrite !repeat_app.
           erewrite run_machine_seq; [| cbn; rewrite Hflag; reflexivity].
           erewrite run_machine_seq; [| exact Hflush].
           erewrite run_machine_seq; [| exact Hcopy].
           exact Hclear.
      * exists (2 + (S (Z.to_nat (receivedBytes st)) + n2))%nat.
        rewrite !repeat_app.
        erewrite run_machine_seq; [| cbn; rewrite Hflag; reflexivity].
        erewrite run_machine_seq; [| exact Hflush].
        exact Hcopy.
    + exists (2 + S (Z.to_nat (receivedBytes st)))%nat.
      rewrite !repeat_app.
      erewrite run_machine_seq; [| cbn; rewrite Hflag; reflexivity].
      exact Hflush.
  - exists 1%nat. cbn. by rewrite Hflag.
Qed.



(** * Properties of the helpers and of the master side *)

(** ** SPI_strcmp *)

Lemma strcmp_antisym (a : list Z) : forall b, strcmp a b = - strcmp b a.
Proof.
  induction a as [|c1 a IH]; intros [|c2 b]; cbn [strcmp]; try lia.
  rewrite (Z.eqb_sym c2 c1).
  destruct (Z.eqb_spec c1 c2) as [-> | Hne]; [| lia].
  destruct (c2 =? 0); [done | apply IH].
Qed.

Lemma strcmp_zero_iff (a : list Z) : forall b,
  strcmp a b = 0 <-> c_str a = c_str b.
Proof.
  induction a as [|c1 a IH]; intros [|c2 b]; cbn [strcmp c_str].
  - done.
  - destruct (Z.eqb_spec c2 0); split; intros H; try done; lia.
  - destruct (Z.eqb_spec c1 0); split; intros H; try done; lia.
  - destruct (Z.eqb_spec c1 c2) as [-> | Hne].
    + destruct (Z.eqb_spec c2 0); [done |].
      rewrite IH. split; [by intros -> | by intros [= ->]].
    + split; [lia |].
      destruct (Z.eqb_spec c1 0), (Z.eqb_spec c2 0); intros H; try done;
        try lia.
      injection H as H _. done.
Qed.

(** C6.  [SPI_strcmp] is antisymmetric, [SPI_strcmp a b = - SPI_strcmp b a],
    it returns zero exactly when the two arguments have the same bytes up
    to their terminators, and comparing the bytes 0x41 0x42 0x00 with the
    string AB returns 0. *)
Theorem C6_SPI_strcmp_antisymmetric :
  (forall a b : list Z, SPI_strcmp a b = - SPI_strcmp b a) /\
  (forall a b : list Z, SPI_strcmp a b = 0 <-> c_str a = c_str b) /\
  SPI_strcmp [0x41; 0x42; 0x00] (chars_of_string "AB") = 0.
Proof.
  split; [| split].
  - intros a b. apply strcmp_antisym.
  - intros a b. apply strcmp_zero_iff.
  - reflexivity.
Qed.

(** ** The slave-select guard *)

Lemma to_uint8_testbit x k :
  0 <= k < 8 -> Z.testbit (to_uint8 x) k = Z.testbit x k.
Proof. intros Hk. unfold to_uint8. apply Z.mod_pow2_bits_low. lia. Qed.

Lemma to_uint8_idem x : to_uint8 (to_uint8 x) = to_uint8 x.
Proof. unfold to_uint8. apply Z.mod_mod. lia. Qed.

Lemma pullHigh_testbit p n k :
  0 <= n -> 0 <= k < 8 ->
  Z.testbit (to_uint8 (Z.lor p (Z.shiftl 1 n))) k
  = if k =? n then true else Z.testbit p k.
Proof.
  intros Hn Hk. rewrite to_uint8_testbit, Z.lor_spec, Z.shiftl_1_l by done.
  rewrite Z.pow2_bits_eqb by done. rewrite (Z.eqb_sym n k).
  destruct (k =? n); [apply orb_true_r | apply orb_false_r].
Qed.

Lemma pullLow_testbit p n k :
  0 <= n -> 0 <= k < 8 ->
  Z.testbit (to_uint8 (Z.land p (Z.lnot (Z.shiftl 1 n)))) k
  = if k =? n then false else Z.testbit p k.
Proof.
  intros Hn Hk. rewrite to_uint8_testbit, Z.land_spec by done.
  rewrite Z.lnot_spec, Z.shiftl_1_l by lia.
  rewrite Z.pow2_bits_eqb by done. rewrite (Z.eqb_sym n k).
  destruct (k =? n); [apply andb_false_r | apply andb_true_r].
Qed.

Lemma SS_begin_default p n :
  SS_begin p n DEFAULT_SS_CONTROL
  = to_uint8 (Z.land p (Z.lnot (Z.shiftl 1 n))).
Proof.
  unfold SS_begin. cbn [Z.eqb DEFAULT_SS_CONTROL INVERTED_SS_CONTROL b2i Pos.eqb].
  rewrite Z.mul_1_l, Z.mul_0_l, Z.add_0_r. apply to_uint8_idem.
Qed.

Lemma SS_begin_inverted p n :
  SS_begin p n INVERTED_SS_CONTROL = to_uint8 (Z.lor p (Z.shiftl 1 n)).
Proof.
  unfold SS_begin. cbn [Z.eqb DEFAULT_SS_CONTROL INVERTED_SS_CONTROL b2i Pos.eqb].
  rewrite Z.mul_1_l, Z.mul_0_l, Z.add_0_l. apply to_uint8_idem.
Qed.

Lemma SS_end_default p n :
  SS_end p n DEFAULT_SS_CONTROL = to_uint8 (Z.lor p (Z.shiftl 1 n)).
Proof.
  unfold SS_end. cbn [Z.eqb DEFAULT_SS_CONTROL INVERTED_SS_CONTROL b2i Pos.eqb].
  rewrite Z.mul_1_l, Z.mul_0_l, Z.add_0_r. apply to_uint8_idem.
Qed.

Lemma SS_end_inverted p n :
  SS_end p n INVERTED_SS_CONTROL
  = to_uint8 (Z.land p (Z.lnot (Z.shiftl 1 n))).
Proof.
  unfold SS_end. cbn [Z.eqb DEFAULT_SS_CONTROL INVERTED_SS_CONTROL b2i Pos.eqb].
  rewrite Z.mul_1_l, Z.mul_0_l, Z.add_0_l. apply to_uint8_idem.
Qed.

Lemma SS_other_mode p n m :
  m <> DEFAULT_SS_CONTROL -> m <> INVERTED_SS_CONTROL ->
  SS_begin p n m = 0 /\ SS_end p n m = 0.
Proof.
  intros Hd Hi. unfold SS_begin, SS_end.
  replace (m =? DEFAULT_SS_CONTROL) with false by (symmetry; by apply Z.eqb_neq).
  replace (m =? INVERTED_SS_CONTROL) with false by (symmetry; by apply Z.eqb_neq).
  cbn [b2i]. by rewrite !Z.mul_0_l.
Qed.

Lemma transmitString_loop_transfers data :
  forallb is_transfer (transmitString_loop data) = true.
Proof.
  induction data as [|c data IH]; cbn [transmitString_loop]; [done |].
  by destruct (c =? 0).
Qed.

Lemma transmitHex_loop_transfers n v mask :
  forallb is_transfer (transmitHex_loop n v mask) = true.
Proof. induction n as [|n IH]; [done | exact IH]. Qed.

(** Every guarded operation is a port write, transfers, a port write. *)
Lemma trace_of_shape op p n m :
  exists body,
    trace_of op p n m
    = PORT_write (SS_begin p n m) :: body ++ [PORT_write (SS_end p n m)] /\
    forallb is_transfer body = true.
Proof.
  destruct op as [data | data | miso | numBytes hexNumber].
  - by exists (SPI_masterPutUint8_t data ++ SPI_masterPutUint8_t DATA_END_CHAR).
  - exists (transmitString_loop data ++ SPI_masterPutUint8_t DATA_END_CHAR).
    split.
    + cbn [trace_of]. unfold SPI_transmitString. cbn [app].
      by rewrite <- app_assoc.
    + rewrite forallb_app, transmitString_loop_transfers. done.
  - by exists (snd (SPI_masterReadUint8_t miso)).
  - exists (transmitHex_loop (Z.to_nat numBytes) hexNumber 0xFF
            ++ SPI_masterPutUint8_t DATA_END_CHAR).
    split.
    + cbn [trace_of]. unfold SPI_transmitHex. cbn [app].
      by rewrite <- app_assoc.
    + rewrite forallb_app, transmitHex_loop_transfers. done.
Qed.

Lemma port_writes_transfers body :
  forallb is_transfer body = true -> port_writes body = [].
Proof.
  induction body as [|[v | b] body IH]; cbn; [done | done | exact IH].
Qed.

Lemma port_writes_trace_of op p n m :
  port_writes (trace_of op p n m) = [SS_begin p n m; SS_end p n m].
Proof.
  destruct (trace_of_shape op p n m) as (body & -> & Hbody).
  unfold port_writes in *. cbn [flat_map app].
  rewrite flat_map_app. fold (port_writes body).
  by rewrite (port_writes_transfers body Hbody).
Qed.

(** C7.  For [SSmode] equal to [DEFAULT_SS_CONTROL] or
    [INVERTED_SS_CONTROL], each of the four guarded operations first writes
    the port with the SS bit asserted (low in the default mode, high in the
    inverted mode), then performs nothing but byte transfers, and last
    writes the port with the SS bit at the opposite level. *)
Theorem C7_select_brackets_transfers (op : guarded_op) (SS_PORTx SS_PORTxn SSmode : Z) :
  0 <= SS_PORTxn < 8 ->
  SSmode = DEFAULT_SS_CONTROL \/ SSmode = INVERTED_SS_CONTROL ->
  exists a d body,
    trace_of op SS_PORTx SS_PORTxn SSmode
    = PORT_write a :: body ++ [PORT_write d] /\
    forallb is_transfer body = true /\
    Z.testbit a SS_PORTxn = (SSmode =? INVERTED_SS_CONTROL) /\
    Z.testbit d SS_PORTxn = (SSmode =? DEFAULT_SS_CONTROL).
Proof.
  intros Hn Hmode.
  destruct (trace_of_shape op SS_PORTx SS_PORTxn SSmode) as (body & Htrace & Hbody).
  exists (SS_begin SS_PORTx SS_PORTxn SSmode), (SS_end SS_PORTx SS_PORTxn SSmode), body.
  split; [done |]. split; [done |].
  destruct Hmode as [-> | ->].
  - rewrite SS_begin_default, SS_end_default.
    rewrite pullLow_testbit, pullHigh_testbit, Z.eqb_refl by lia. done.
  - rewrite SS_begin_inverted, SS_end_inverted.
    rewrite pullLow_testbit, pullHigh_testbit, Z.eqb_refl by lia. done.
Qed.

Lemma C7_select_brackets_transfers_witness :
  exists a d body,
    trace_of (TransmitString (chars_of_string "TOGGLE")) 0xB5 4 DEFAULT_SS_CONTROL
    = PORT_write a :: body ++ [PORT_write d] /\
    forallb is_transfer body = true /\
    Z.testbit a 4 = (DEFAULT_SS_CONTROL =? INVERTED_SS_CONTROL) /\
    Z.testbit d 4 = (DEFAULT_SS_CONTROL =? DEFAULT_SS_CONTROL).
Proof.
  apply (C7_select_brackets_transfers
           (TransmitString (chars_of_string "TOGGLE")) 0xB5 4 DEFAULT_SS_CONTROL).
  - lia.
  - left. reflexivity.
Defined.

(** C10.  The guarded operations leave the bits of the port other than the
    SS bit as they found them only when [SSmode] is [DEFAULT_SS_CONTROL] or
    [INVERTED_SS_CONTROL]; for every other value of [SSmode] both port
    writes, the one that should assert and the one that should release,
    write 0x00 and so clear every bit of the port. *)
Theorem C10_port_frame (op : guarded_op) (SS_PORTx SS_PORTxn SSmode : Z) :
  (SSmode = DEFAULT_SS_CONTROL \/ SSmode = INVERTED_SS_CONTROL ->
   0 <= SS_PORTxn < 8 ->
   exists a d,
     port_writes (trace_of op SS_PORTx SS_PORTxn SSmode) = [a; d] /\
     forall k, 0 <= k < 8 -> k <> SS_PORTxn ->
       Z.testbit a k = Z.testbit SS_PORTx k /\
       Z.testbit d k = Z.testbit SS_PORTx k) /\
  (SSmode <> DEFAULT_SS_CONTROL -> SSmode <> INVERTED_SS_CONTROL ->
   port_writes (trace_of op SS_PORTx SS_PORTxn SSmode) = [0; 0]).
Proof.
  rewrite port_writes_trace_of. split.
  - intros Hmode Hn. eexists _, _. split; [done |].
    intros k Hk Hne.
    assert (Hkn : (k =? SS_PORTxn) = false) by by apply Z.eqb_neq.
    destruct Hmode as [-> | ->].
    + rewrite SS_begin_default, SS_end_default.
      rewrite pullLow_testbit, pullHigh_testbit, Hkn by lia. done.
    + rewrite SS_begin_inverted, SS_end_inverted.
      rewrite pullLow_testbit, pullHigh_testbit, Hkn by lia. done.
  - intros Hd Hi. by destruct (SS_other_mode SS_PORTx SS_PORTxn SSmode Hd Hi) as [-> ->].
Qed.

Lemma C10_port_frame_witness :
  (exists a d,
     port_writes (trace_of (TransmitHex 2 0x1234) 0xB5 4 INVERTED_SS_CONTROL)
     = [a; d] /\
     forall k, 0 <= k < 8 -> k <> 4 ->
       Z.testbit a k = Z.testbit 0xB5 k /\ Z.testbit d k = Z.testbit 0xB5 k) /\
  port_writes (trace_of (TransmitUint8_t 0x41) 0xB5 4 2) = [0; 0].
Proof.
  split.
  - apply (C10_port_frame (TransmitHex 2 0x1234) 0xB5 4 INVERTED_SS_CONTROL).
    + right. reflexivity.
    + lia.
  - apply (C10_port_frame (TransmitUint8_t 0x41) 0xB5 4 2); discriminate.
Defined.

(** ** Packing and unpacking numbers *)

Lemma lor_shiftl_add a b k :
  0 <= k -> 0 <= b < 2 ^ k -> Z.lor (Z.shiftl a k) b = a * 2 ^ k + b.
Proof.
  intros Hk Hb.
  assert (Hland : Z.land (Z.shiftl a k) b = 0).
  { apply Z.bits_inj'. intros i Hi. rewrite Z.land_spec, Z.bits_0.
    destruct (Z.lt_ge_cases i k) as [Hlt | Hge].
    - by rewrite Z.shiftl_spec_low.
    - rewrite <- (Z.mod_small b (2 ^ k)) by done.
      rewrite Z.mod_pow2_bits_high by lia. apply andb_false_r. }
  pose proof (Z.add_lor_land (Z.shiftl a k) b) as Hadd.
  rewrite Hland, Z.add_0_r in Hadd. rewrite Hadd.
  by rewrite Z.shiftl_mul_pow2.
Qed.

Lemma big_endian_bounds bytes :
  Forall is_byte bytes ->
  0 <= big_endian bytes < 2 ^ (8 * Z.of_nat (length bytes)).
Proof.
  induction 1 as [|b bytes Hb _ IH]; cbn [big_endian length]; [lia |].
  rewrite lor_shiftl_add by lia. unfold is_byte in Hb.
  replace (8 * Z.of_nat (S (length bytes)))
    with (8 + 8 * Z.of_nat (length bytes)) by lia.
  rewrite Z.pow_add_r by lia. nia.
Qed.

Lemma big_endian_cons b bytes :
  Forall is_byte bytes ->
  big_endian (b :: bytes) = b * 2 ^ (8 * Z.of_nat (length bytes)) + big_endian bytes.
Proof.
  intros Hbytes. cbn [big_endian]. apply lor_shiftl_add; [lia |].
  by apply big_endian_bounds.
Qed.

Lemma hexArray_loop_value (rest : list Z) : forall pre acc,
  Forall is_byte rest ->
  0 <= acc < 2 ^ 64 ->
  hexArray_loop (length rest) (Z.of_nat (length pre)) (pre ++ rest) acc
  = Ok ((acc * 2 ^ (8 * Z.of_nat (length rest)) + big_endian rest) mod 2 ^ 64).
Proof.
  induction rest as [|b rest IH]; intros pre acc Hbytes Hacc.
  - cbn. rewrite Z.mul_1_r, Z.add_0_r, Z.mod_small by lia. done.
  - apply Forall_cons in Hbytes as [Hb Hbytes].
    cbn [length hexArray_loop]. rewrite load_middle by done. cbn [bind].
    replace (Z.of_nat (length pre) + 1) with (Z.of_nat (length (pre ++ [b])))
      by (rewrite length_app; cbn [length]; lia).
    replace (pre ++ b :: rest) with ((pre ++ [b]) ++ rest)
      by (by rewrite <- app_assoc).
    unfold to_uint64. rewrite lor_shiftl_add by (done || lia).
    rewrite IH; [| done | apply Z.mod_pos_bound; lia].
    f_equal. rewrite big_endian_cons by done.
    rewrite <- Z.add_mod_idemp_l, Z.mul_mod_idemp_l by lia.
    rewrite Z.add_mod_idemp_l by lia. f_equal.
    replace (8 * Z.of_nat (S (length rest)))
      with (8 + 8 * Z.of_nat (length rest)) by lia.
    rewrite Z.pow_add_r by lia. lia.
Qed.

Lemma hexArrayToUint64_t_value bytes :
  Forall is_byte bytes ->
  hexArrayToUint64_t bytes (Z.of_nat (length bytes))
  = Ok (big_endian bytes mod 2 ^ 64).
Proof.
  intros Hbytes. unfold hexArrayToUint64_t. rewrite Nat2Z.id.
  pose proof (hexArray_loop_value bytes [] 0 Hbytes) as H.
  cbn [app length] in H. change (Z.of_nat 0) with 0 in H.
  rewrite H by lia. by rewrite Z.mul_0_l.
Qed.

Lemma hex_bytes_length n v : length (hex_bytes n v) = n.
Proof. induction n as [|n IH]; cbn [hex_bytes length]; [done | by rewrite IH]. Qed.

Lemma hex_bytes_bytes n v : Forall is_byte (hex_bytes n v).
Proof.
  induction n as [|n IH]; cbn [hex_bytes]; constructor; [| done].
  unfold is_byte. apply Z.mod_pos_bound. lia.
Qed.

Lemma transmitHex_loop_bytes n v :
  transmitHex_loop n v 0xFF = map SPDR_write (hex_bytes n v).
Proof.
  induction n as [|n IH]; cbn [transmitHex_loop hex_bytes map]; [done |].
  rewrite IH. unfold SPI_masterPutUint8_t. cbn [app]. do 2 f_equal.
  change 255 with (Z.ones 8).
  rewrite Z.land_ones, Z.shiftr_div_pow2 by lia.
  unfold to_uint8. rewrite Z.mod_mod by lia.
  by rewrite (Z.mul_comm (Z.of_nat n) 8).
Qed.

Lemma big_endian_hex_bytes n v :
  big_endian (hex_bytes n v) = v mod 2 ^ (8 * Z.of_nat n).
Proof.
  induction n as [|n IH]; cbn [hex_bytes].
  - cbn. by rewrite Z.mod_1_r.
  - rewrite big_endian_cons by apply hex_bytes_bytes.
    rewrite hex_bytes_length, IH.
    replace (8 * Z.of_nat (S n)) with (8 * Z.of_nat n + 8) by lia.
    rewrite Z.pow_add_r, Z.rem_mul_r by lia. lia.
Qed.

Lemma bus_bytes_map_SPDR_write bytes : bus_bytes (map SPDR_write bytes) = bytes.
Proof. induction bytes as [|b bytes IH]; cbn; [done | by f_equal]. Qed.

Lemma bus_bytes_SPI_transmitHex p n m numBytes v :
  bus_bytes (SPI_transmitHex p n m numBytes v)
  = hex_bytes (Z.to_nat numBytes) v ++ [DATA_END_CHAR].
Proof.
  unfold SPI_transmitHex, bus_bytes. cbn [app flat_map].
  rewrite transmitHex_loop_bytes, flat_map_app.
  fold (bus_bytes (map SPDR_write (hex_bytes (Z.to_nat numBytes) v))).
  by rewrite bus_bytes_map_SPDR_write.
Qed.

(** C5.  [hexArrayToUint64_t] on the bytes [b0..bn-1] is the big-endian
    value [b0<<8(n-1) | ... | bn-1], reduced modulo 2^64 and hence exact
    for up to 8 bytes.  For [numBytes] in 1..8 and a value below
    2^(8 numBytes), the bytes [SPI_transmitHex] puts on the bus are
    [numBytes] payload bytes and the terminator, and packing the payload
    yields the value again.  With [numBytes] = 2 and the value 0x1234 the
    function sends 0x12, 0x34, 0x0D between the two port writes. *)
Theorem C5_pack_is_big_endian_and_round_trips :
  (forall bytes : list Z,
     Forall is_byte bytes ->
     hexArrayToUint64_t bytes (Z.of_nat (length bytes))
     = Ok (big_endian bytes mod 2 ^ 64) /\
     ((length bytes <= 8)%nat ->
      hexArrayToUint64_t bytes (Z.of_nat (length bytes)) = Ok (big_endian bytes))) /\
  (forall SS_PORTx SS_PORTxn SSmode numBytes value : Z,
     1 <= numBytes <= 8 ->
     0 <= value < 2 ^ (8 * numBytes) ->
     exists payload,
       bus_bytes (SPI_transmitHex SS_PORTx SS_PORTxn SSmode numBytes value)
       = payload ++ [DATA_END_CHAR] /\
       Z.of_nat (length payload) = numBytes /\
       hexArrayToUint64_t payload numBytes = Ok value) /\
  (forall SS_PORTx SS_PORTxn : Z,
     SPI_transmitHex SS_PORTx SS_PORTxn DEFAULT_SS_CONTROL 2 0x1234
     = [PORT_write (SS_begin SS_PORTx SS_PORTxn DEFAULT_SS_CONTROL);
        SPDR_write 0x12; SPDR_write 0x34; SPDR_write 0x0D;
        PORT_write (SS_end SS_PORTx SS_PORTxn DEFAULT_SS_CONTROL)]).
Proof.
  split; [| split].
  - intros bytes Hbytes. split; [by apply hexArrayToUint64_t_value |].
    intros Hlen. rewrite hexArrayToUint64_t_value by done. f_equal.
    pose proof (big_endian_bounds bytes Hbytes) as Hb.
    apply Z.mod_small. split; [lia |].
    eapply Z.lt_le_trans; [apply Hb |]. apply Z.pow_le_mono_r; lia.
  - intros p n m numBytes value Hn Hv.
    exists (hex_bytes (Z.to_nat numBytes) value).
    split; [apply bus_bytes_SPI_transmitHex |].
    split; [rewrite hex_bytes_length; lia |].
    pose proof (hexArrayToUint64_t_value _ (hex_bytes_bytes (Z.to_nat numBytes) value))
      as H.
    rewrite hex_bytes_length, Z2Nat.id in H by lia. rewrite H. f_equal.
    rewrite big_endian_hex_bytes, Z2Nat.id by lia.
    rewrite (Z.mod_small value) by done. apply Z.mod_small.
    split; [lia |]. eapply Z.lt_le_trans; [apply Hv |].
    apply Z.pow_le_mono_r; lia.
  - intros p n. reflexivity.
Qed.

Lemma C5_pack_is_big_endian_and_round_trips_witness :
  (hexArrayToUint64_t [0x12; 0x34; 0x56] (Z.of_nat (length [0x12; 0x34; 0x56]))
   = Ok (big_endian [0x12; 0x34; 0x56] mod 2 ^ 64) /\
   ((length [0x12; 0x34; 0x56] <= 8)%nat ->
    hexArrayToUint64_t [0x12; 0x34; 0x56] (Z.of_nat (length [0x12; 0x34; 0x56]))
    = Ok (big_endian [0x12; 0x34; 0x56]))) /\
  (exists payload,
     bus_bytes (SPI_transmitHex 0xB5 4 DEFAULT_SS_CONTROL 2 0x4321)
     = payload ++ [DATA_END_CHAR] /\
     Z.of_nat (length payload) = 2 /\
     hexArrayToUint64_t payload 2 = Ok 0x4321).
Proof.
  split.
  - apply (proj1 C5_pack_is_big_endian_and_round_trips [0x12; 0x34; 0x56]).
    repeat constructor; unfold is_byte; lia.
  - apply (proj1 (proj2 C5_pack_is_big_endian_and_round_trips)
             0xB5 4 DEFAULT_SS_CONTROL 2 0x4321); lia.
Defined.

(** * Further properties of the receive path *)

(** ** flushBuffer *)

Lemma flush_loop_overrun a (n : nat) : forall pre post i,
  i = Z.of_nat (length pre) -> (length post < n)%nat ->
  flush_loop a n i (pre ++ post)
  = Fault (OutOfBounds a (Z.of_nat (length (pre ++ post)))).
Proof.
  induction n as [|n IH]; intros pre post i Hi Hn; [lia |].
  cbn [flush_loop]. destruct post as [|x post].
  - rewrite app_nil_r. rewrite store_fault by lia. by subst i.
  - rewrite store_middle by done. cbn [bind].
    replace (pre ++ 0 :: post) with ((pre ++ [0]) ++ post)
      by (by rewrite <- app_assoc).
    rewrite IH; [| rewrite length_app; cbn [length]; lia
                 | cbn [length] in Hn; lia].
    do 2 f_equal. rewrite !length_app. cbn [length]. lia.
Qed.

Lemma flushBuffer_overrun (a : array_id) (array : list Z) (size : Z) :
  Z.of_nat (length array) < size ->
  flushBuffer a array size = Fault (OutOfBounds a (Z.of_nat (length array))).
Proof.
  intros Hsize. unfold flushBuffer.
  apply (flush_loop_overrun a _ [] array 0); [done | lia].
Qed.

(** X1.  [flushBuffer(array, size)] with [size] within the array zeroes
    the cells [0, size) and leaves every cell from [size] on, and the
    length of the array, as they were. *)
Theorem X1_flushBuffer_zeroes_prefix (a : array_id) (array : list Z) (size : Z) :
  0 <= size <= Z.of_nat (length array) ->
  exists array',
    flushBuffer a array size = Ok array' /\
    length array' = length array /\
    (forall i, (i < Z.to_nat size)%nat -> array' !! i = Some 0) /\
    (forall i, (Z.to_nat size <= i)%nat -> array' !! i = array !! i).
Proof.
  intros Hsize. eexists. split; [by apply flushBuffer_prefix |].
  split; [| split].
  - rewrite length_app, length_replicate, length_drop. lia.
  - intros i Hi. rewrite lookup_app_l by (rewrite length_replicate; lia).
    by apply lookup_replicate_2.
  - intros i Hi. rewrite lookup_app_r by (rewrite length_replicate; lia).
    rewrite length_replicate, lookup_drop. f_equal. lia.
Qed.

Lemma X1_flushBuffer_zeroes_prefix_witness :
  exists array',
    flushBuffer ARR_SPI_data [84; 79; 71; 71; 76; 69] 4 = Ok array' /\
    length array' = length [84; 79; 71; 71; 76; 69] /\
    (forall i, (i < Z.to_nat 4)%nat -> array' !! i = Some 0) /\
    (forall i, (Z.to_nat 4 <= i)%nat ->
               array' !! i = [84; 79; 71; 71; 76; 69] !! i).
Proof.
  apply (X1_flushBuffer_zeroes_prefix ARR_SPI_data [84; 79; 71; 71; 76; 69] 4).
  cbn. lia.
Defined.

(** X2.  [flushBuffer] checks nothing: a [size] larger than the array
    makes it write past the end, the first time at the index that equals
    the length of the array. *)
Theorem X2_flushBuffer_overruns (a : array_id) (array : list Z) (size : Z) :
  Z.of_nat (length array) < size ->
  flushBuffer a array size = Fault (OutOfBounds a (Z.of_nat (length array))).
Proof. apply flushBuffer_overrun. Qed.

Lemma X2_flushBuffer_overruns_witness :
  flushBuffer ARR_SPI_data [1; 2; 3] 4
  = Fault (OutOfBounds ARR_SPI_data (Z.of_nat (length [1; 2; 3]))).
Proof.
  apply (X2_flushBuffer_overruns ARR_SPI_data [1; 2; 3] 4). cbn. lia.
Defined.

(** ** What every reachable state keeps *)

Lemma store_Ok_length a (arr arr' : list Z) i v :
  store a arr i v = Ok arr' -> length arr' = length arr.
Proof.
  unfold store. destruct (in_bounds arr i); [| done].
  intros [= <-]. apply length_insert.
Qed.

Lemma flush_loop_Ok_length a (n : nat) : forall i arr arr',
  flush_loop a n i arr = Ok arr' -> length arr' = length arr.
Proof.
  induction n as [|n IH]; intros i arr arr' H; cbn [flush_loop] in H.
  - by injection H as <-.
  - destruct (store a arr i 0) as [arr1 |] eqn:Hstore; cbn [bind] in H; [| done].
    rewrite (IH _ _ _ H). by apply (store_Ok_length _ _ _ _ _ Hstore).
Qed.

Lemma copy_loop_Ok_length (fuel : nat) : forall i buffer data data',
  copy_loop fuel i buffer data = Ok data' -> length data' = length data.
Proof.
  induction fuel as [|fuel IH]; intros i buffer data data' H; [done |].
  cbn [copy_loop] in H.
  destruct (load ARR_SPI_buffer buffer i) as [c |]; cbn [bind] in H; [| done].
  destruct (negb (c =? DATA_END_CHAR)); [| by injection H as <-].
  destruct (store ARR_SPI_data data i c) as [d1 |] eqn:Hstore; cbn [bind] in H;
    [| done].
  rewrite (IH _ _ _ _ H). by apply (store_Ok_length _ _ _ _ _ Hstore).
Qed.

Lemma SPI_readAll_Ok_inv st r st' :
  SPI_readAll st = Ok (r, st') ->
  length (SPI_data st') = length (SPI_data st) /\
  length (SPI_buffer st') = length (SPI_buffer st) /\
  dataIndex st' = dataIndex st /\
  dataReceived st' = false /\
  r = dataReceived st /\
  (receivedBytes st' = 0 \/ receivedBytes st' = receivedBytes st).
Proof.
  unfold SPI_readAll, flushBuffer. destruct (dataReceived st) eqn:Hflag.
  - destruct (flush_loop ARR_SPI_data _ _ _) as [d1 |] eqn:H1; cbn [bind]; [| done].
    destruct (copy_loop _ _ _ _) as [d2 |] eqn:H2; cbn [bind]; [| done].
    destruct (flush_loop ARR_SPI_buffer _ _ _) as [b1 |] eqn:H3; cbn [bind];
      [| done].
    intros [= <- <-]. cbn.
    rewrite (copy_loop_Ok_length _ _ _ _ _ H2), (flush_loop_Ok_length _ _ _ _ _ H1),
      (flush_loop_Ok_length _ _ _ _ _ H3).
    repeat split; by left.
  - intros [= <- <-]. repeat split; try done. by right.
Qed.

(** X3.  In every state the handler and [SPI_readAll] reach from the
    initial state, in any order of calls and as long as no access has left
    an array, both arrays still have their [cap] cells, the cursor is
    between 0 and [cap] and fits a [uint8_t], and the counter fits a
    [size_t]. *)
Theorem X3_reachable_states_well_formed (cap : Z) (evs : list event) (st : state) :
  0 <= cap ->
  run evs (init_state cap) = Ok st ->
  length (SPI_data st) = Z.to_nat cap /\
  length (SPI_buffer st) = Z.to_nat cap /\
  0 <= dataIndex st <= cap /\ dataIndex st < 2 ^ 8 /\
  0 <= receivedBytes st < 2 ^ 16.
Proof.
  intros Hcap. revert st.
  induction evs as [|e evs IH] using rev_ind; intros st Hrun.
  - injection Hrun as <-. cbn. rewrite !length_replicate. lia.
  - rewrite run_snoc in Hrun.
    destruct (run evs (init_state cap)) as [st0 |]; cbn [bind] in Hrun; [| done].
    destruct (IH st0 eq_refl) as (Hd & Hb & Hi & Hi8 & Hr).
    destruct e as [b |]; cbn [exec] in Hrun.
    + destruct (Z.lt_ge_cases (dataIndex st0) cap) as [Hlt | Hge].
      * rewrite ISR_SPI_STC_inside in Hrun by lia. injection Hrun as <-.
        unfold ISR_post.
        destruct (b =? DATA_END_CHAR);
          cbn [SPI_data SPI_buffer dataIndex receivedBytes];
          rewrite length_insert; repeat split; try done; try lia.
        -- unfold to_uint8. apply Z.mod_pos_bound. lia.
        -- unfold to_uint8.
           pose proof (Z.mod_le (dataIndex st0 + 1) (2 ^ 8)). lia.
        -- unfold to_uint8. apply Z.mod_pos_bound. lia.
        -- unfold to_size_t. apply Z.mod_pos_bound. lia.
        -- unfold to_size_t. apply Z.mod_pos_bound. lia.
      * rewrite ISR_SPI_STC_outside in Hrun by lia. done.
    + destruct (SPI_readAll st0) as [[r st1] |] eqn:Hread; cbn [bind snd] in Hrun;
        [| done].
      injection Hrun as <-.
      destruct (SPI_readAll_Ok_inv _ _ _ Hread) as (Hd' & Hb' & Hi' & _ & _ & Hr').
      rewrite Hd', Hb', Hi'. repeat split; try done; try lia.
      all: destruct Hr' as [-> | ->]; lia.
Qed.

Lemma X3_reachable_states_well_formed_witness :
  length (SPI_data (mkState [65; 66; 0; 0; 0; 0] [69; 68; 13; 0; 0; 0] 1 true 3))
  = Z.to_nat 6 /\
  length (SPI_buffer (mkState [65; 66; 0; 0; 0; 0] [69; 68; 13; 0; 0; 0] 1 true 3))
  = Z.to_nat 6 /\
  0 <= dataIndex (mkState [65; 66; 0; 0; 0; 0] [69; 68; 13; 0; 0; 0] 1 true 3) <= 6 /\
  dataIndex (mkState [65; 66; 0; 0; 0; 0] [69; 68; 13; 0; 0; 0] 1 true 3) < 2 ^ 8 /\
  0 <= receivedBytes (mkState [65; 66; 0; 0; 0; 0] [69; 68; 13; 0; 0; 0] 1 true 3)
    < 2 ^ 16.
Proof.
  apply (X3_reachable_states_well_formed 6
           [Recv 65; Recv 66; Recv 13; ReadAll; Recv 67; Recv 68; Recv 13; Recv 69]).
  - lia.
  - vm_compute. reflexivity.
Defined.

(** ** One message after another *)

(** A frame that starts with the cursor at 0 lands at the start of the
    working buffer, whatever the buffer held. *)
Lemma run_ISR_frame st (S : list Z) :
  DATA_END_CHAR ∉ S ->
  dataIndex st = 0 ->
  0 <= receivedBytes st < 2 ^ 16 ->
  (length S < length (SPI_buffer st))%nat ->
  Z.of_nat (length S) < 2 ^ 8 ->
  run_ISR (S ++ [DATA_END_CHAR]) st
  = Ok (mkState (SPI_data st)
          (S ++ DATA_END_CHAR :: drop (Datatypes.S (length S)) (SPI_buffer st))
          0 true (to_size_t (receivedBytes st + Z.of_nat (length S)))).
Proof.
  intros Hno Hidx Hrb Hlen H8. rewrite run_ISR_app.
  destruct (split_at (drop (length S) (SPI_buffer st)) 0) as (pre & x & post & Hd & Hpre);
    [rewrite length_drop; lia |].
  destruct pre; [| done]. cbn [app] in Hd.
  rewrite (run_ISR_payload S st [] (take (length S) (SPI_buffer st)) (x :: post));
    cbn [app length]; try done; try lia.
  - cbn [bind run_ISR].
    rewrite (ISR_SPI_STC_middle _ _ S x post); cbn [SPI_buffer dataIndex]; try done.
    cbn [bind]. unfold ISR_post. rewrite Z.eqb_refl.
    cbn [SPI_data receivedBytes]. do 2 f_equal.
    assert (Hpost : drop (Datatypes.S (length S)) (SPI_buffer st) = post).
    { replace (Datatypes.S (length S)) with (length S + 1)%nat by lia.
      by rewrite <- drop_drop, Hd. }
    by rewrite Hpost.
  - by rewrite <- Hd, take_drop.
  - rewrite length_take. lia.
Qed.

(** The hand-off when the first terminator of the working buffer is at
    [length S] and the counter is [n]. *)
Lemma SPI_readAll_pending st (S tail : list Z) (n : nat) :
  dataReceived st = true ->
  SPI_buffer st = S ++ DATA_END_CHAR :: tail ->
  DATA_END_CHAR ∉ S ->
  receivedBytes st = Z.of_nat n ->
  (length S <= n)%nat ->
  (n <= length (SPI_data st))%nat ->
  (n <= length (SPI_buffer st))%nat ->
  SPI_readAll st
  = Ok (true,
        mkState (S ++ replicate (n - length S) 0 ++ drop n (SPI_data st))
                (replicate n 0 ++ drop n (SPI_buffer st))
                (dataIndex st) false 0).
Proof.
  intros Hflag Hbuf Hno Hrb HSn Hnd Hnb. unfold SPI_readAll.
  change (flush_loop ARR_SPI_buffer (Z.to_nat (receivedBytes st)) 0 (SPI_buffer st))
    with (flushBuffer ARR_SPI_buffer (SPI_buffer st) (receivedBytes st)).
  rewrite Hflag, Hrb, !flushBuffer_prefix, Nat2Z.id by lia. cbn [bind].
  pose proof (copy_loop_middle S (Datatypes.S (length (SPI_buffer st))) [] tail
                [] (replicate (length S) 0)
                (replicate (n - length S) 0 ++ drop n (SPI_data st))) as Hcopy.
  cbn [app length] in Hcopy. change (Z.of_nat 0) with 0 in Hcopy.
  rewrite <- Hbuf in Hcopy.
  replace (replicate n 0 ++ drop n (SPI_data st))
    with (replicate (length S) 0
          ++ replicate (n - length S) 0 ++ drop n (SPI_data st)).
  - rewrite Hcopy; cbn [bind]; try done.
    + by rewrite length_replicate.
    + rewrite Hbuf, length_app. cbn [length]. lia.
  - rewrite app_assoc, <- replicate_add. do 2 f_equal. lia.
Qed.

Lemma run_app evs1 evs2 st :
  run (evs1 ++ evs2) st = let* st' := run evs1 st in run evs2 st'.
Proof.
  revert st. induction evs1 as [|e evs1 IH]; intros st; cbn [app run bind];
    [done |].
  destruct (exec e st); cbn [bind]; [apply IH | done].
Qed.

Lemma run_Recv bytes : forall st, run (map Recv bytes) st = run_ISR bytes st.
Proof.
  induction bytes as [|b bytes IH]; intros st; [done |].
  cbn [map run run_ISR exec].
  destruct (ISR_SPI_STC b st); cbn [bind]; [apply IH | done].
Qed.

Lemma run_deliver S st :
  run (deliver S) st
  = let* st1 := run_ISR (S ++ [DATA_END_CHAR]) st in
    let* r := SPI_readAll st1 in Ok (snd r).
Proof.
  unfold deliver.
  change [Recv DATA_END_CHAR; ReadAll] with (map Recv [DATA_END_CHAR] ++ [ReadAll]).
  rewrite app_assoc, <- map_app, run_app, run_Recv.
  destruct (run_ISR (S ++ [DATA_END_CHAR]) st) as [st1 |]; cbn [bind run exec];
    [| done].
  by destruct (SPI_readAll st1).
Qed.

(** From a quiescent state a framable message is handed over whole: it
    replaces the first cells of [SPI_data], the cells behind it keep what
    they held, and the state is quiescent again. *)
Lemma run_deliver_quiescent (cap : Z) (S : list Z) (st : state) :
  cap <= 2 ^ 8 ->
  framable cap S ->
  quiescent cap st ->
  exists st',
    run (deliver S) st = Ok st' /\
    SPI_data st' = S ++ drop (length S) (SPI_data st) /\
    quiescent cap st'.
Proof.
  intros Hcap [Hno Hlen] (Hidx & Hflag & Hrb & Hd & Hb).
  rewrite run_deliver, run_ISR_frame by (done || lia). cbn [bind].
  rewrite (SPI_readAll_framed _ S (drop (Datatypes.S (length S)) (SPI_buffer st)));
    cbn [dataReceived SPI_buffer SPI_data receivedBytes]; try done; try lia.
  - cbn [bind snd]. eexists. split; [done |]. split; [done |].
    unfold quiescent. cbn [SPI_data SPI_buffer dataIndex dataReceived receivedBytes].
    repeat split; try done.
    + rewrite length_app, length_drop. lia.
    + rewrite length_app, length_replicate. cbn [length]. rewrite length_drop. lia.
  - rewrite Hrb. unfold to_size_t. rewrite Z.mod_small; lia.
Qed.

(** Received with its terminator and then polled, from a quiescent state. *)
Lemma frame_then_read_quiescent (cap : Z) (S : list Z) (st : state) :
  cap <= 2 ^ 8 ->
  framable cap S ->
  quiescent cap st ->
  exists st1 st',
    run_ISR (S ++ [DATA_END_CHAR]) st = Ok st1 /\
    SPI_readAll st1 = Ok (true, st') /\
    take (length S) (SPI_data st') = S /\
    drop (length S) (SPI_data st') = drop (length S) (SPI_data st) /\
    quiescent cap st'.
Proof.
  intros Hcap HS Hq.
  destruct (run_deliver_quiescent cap S st Hcap HS Hq) as (st' & Hrun & Hdata & Hq').
  destruct HS as [Hno Hlen]. destruct Hq as (Hidx & Hflag & Hrb & Hd & Hb).
  rewrite run_deliver, run_ISR_frame in Hrun by (done || lia). cbn [bind] in Hrun.
  eexists _, st'. split; [by apply run_ISR_frame; (done || lia) |].
  destruct (SPI_readAll _) as [[r st2] |] eqn:Hread; cbn [bind snd] in Hrun;
    [| done].
  injection Hrun as ->.
  destruct (SPI_readAll_Ok_inv _ _ _ Hread) as (_ & _ & _ & _ & -> & _).
  split; [done |]. rewrite Hdata.
  split; [by rewrite take_app_length | by rewrite drop_app_length].
Qed.

(** X4.  From any quiescent state (cursor 0, nothing pending, counter 0), a
    message without terminator byte and shorter than the arrays, received
    with its terminator and then polled, is in the first cells of
    [SPI_data]; the cells behind it keep whatever they held before, and the
    state is quiescent again, ready for the next message. *)
Theorem X4_message_from_quiescent_state (cap : Z) (S : list Z) (st : state) :
  cap <= 2 ^ 8 ->
  framable cap S ->
  quiescent cap st ->
  exists st1 st',
    run_ISR (S ++ [DATA_END_CHAR]) st = Ok st1 /\
    SPI_readAll st1 = Ok (true, st') /\
    take (length S) (SPI_data st') = S /\
    drop (length S) (SPI_data st') = drop (length S) (SPI_data st) /\
    quiescent cap st'.
Proof. apply frame_then_read_quiescent. Qed.

Lemma X4_message_from_quiescent_state_witness :
  exists st1 st',
    run_ISR ([79; 78] ++ [DATA_END_CHAR])
      (mkState [84; 79; 71; 71; 76; 69; 0; 0] [0; 0; 0; 0; 0; 0; 13; 0] 0 false 0)
    = Ok st1 /\
    SPI_readAll st1 = Ok (true, st') /\
    take (length [79; 78]) (SPI_data st') = [79; 78] /\
    drop (length [79; 78]) (SPI_data st')
    = drop (length [79; 78])
        (SPI_data
           (mkState [84; 79; 71; 71; 76; 69; 0; 0] [0; 0; 0; 0; 0; 0; 13; 0]
              0 false 0)) /\
    quiescent 8 st'.
Proof.
  apply (X4_message_from_quiescent_state 8 [79; 78]).
  - lia.
  - split; [| cbn; lia].
    unfold DATA_END_CHAR. rewrite !not_elem_of_cons. repeat split; try lia.
    apply not_elem_of_nil.
  - repeat split.
Defined.

Ltac not_in_list :=
  unfold DATA_END_CHAR; rewrite ?not_elem_of_cons;
  repeat split; try lia; try apply not_elem_of_nil.

Lemma session_snoc msgs S : session (msgs ++ [S]) = session msgs ++ deliver S.
Proof. unfold session. rewrite flat_map_app. cbn [flat_map]. by rewrite app_nil_r. Qed.

(** After a session, the state is quiescent and [SPI_data] is zero from the
    length of the longest message on. *)
Lemma run_session_clean (cap : Z) (msgs : list (list Z)) :
  cap <= 2 ^ 8 ->
  Forall (framable cap) msgs ->
  forall m : nat,
    Forall (fun M => (length M <= m)%nat) msgs ->
    exists st,
      run (session msgs) (init_state cap) = Ok st /\
      quiescent cap st /\
      drop m (SPI_data st) = replicate (Z.to_nat cap - m) 0.
Proof.
  intros Hcap. induction msgs as [|S msgs IH] using rev_ind; intros Hfr m Hm.
  - exists (init_state cap). split; [done |]. split.
    + unfold quiescent. cbn. by rewrite !length_replicate.
    + cbn [init_state SPI_data]. by rewrite drop_replicate.
  - apply Forall_app in Hfr as [Hfr HS]. apply Forall_app in Hm as [Hm HSm].
    rewrite Forall_singleton in HS. rewrite Forall_singleton in HSm.
    destruct (IH Hfr m Hm) as (st & Hrun & Hq & Hclean).
    destruct (run_deliver_quiescent cap S st Hcap HS Hq)
      as (st' & Hrun' & Hdata & Hq').
    exists st'. rewrite session_snoc, run_app, Hrun. cbn [bind].
    split; [done |]. split; [done |].
    rewrite Hdata, drop_app_ge, drop_drop by lia.
    rewrite <- Hclean. f_equal. lia.
Qed.

(** X5.  Over a whole session of messages, each received and then polled,
    a message that is at least as long as every message before it is
    handed over exactly: [SPI_data] holds the message followed by zeroes
    only.  Messages of one fixed length are the special case. *)
Theorem X5_longest_message_delivered_exactly (cap : Z) (msgs : list (list Z))
    (S : list Z) :
  cap <= 2 ^ 8 ->
  Forall (framable cap) msgs ->
  framable cap S ->
  Forall (fun M => (length M <= length S)%nat) msgs ->
  exists st,
    run (session (msgs ++ [S])) (init_state cap) = Ok st /\
    SPI_data st = S ++ replicate (Z.to_nat cap - length S) 0 /\
    quiescent cap st.
Proof.
  intros Hcap Hfr HS Hlen.
  destruct (run_session_clean cap msgs Hcap Hfr (length S) Hlen)
    as (st & Hrun & Hq & Hclean).
  destruct (run_deliver_quiescent cap S st Hcap HS Hq) as (st' & Hrun' & Hdata & Hq').
  exists st'. rewrite session_snoc, run_app, Hrun. cbn [bind].
  split; [done |]. split; [| done]. by rewrite Hdata, Hclean.
Qed.

Lemma X5_longest_message_delivered_exactly_witness :
  exists st,
    run (session ([[0x12; 0x34]; [0x43; 0x21]] ++ [[0x12; 0x35]])) (init_state 6)
    = Ok st /\
    SPI_data st = [0x12; 0x35] ++ replicate (Z.to_nat 6 - length [0x12; 0x35]) 0 /\
    quiescent 6 st.
Proof.
  apply (X5_longest_message_delivered_exactly 6 [[0x12; 0x34]; [0x43; 0x21]]
           [0x12; 0x35]).
  - lia.
  - repeat constructor; try (cbn; lia); not_in_list.
  - split; [not_in_list | cbn; lia].
  - repeat constructor.
Defined.

Lemma strcmp_prefix (S : list Z) (x : Z) (rest : list Z) :
  0 ∉ S -> strcmp (S ++ x :: rest) S = x.
Proof.
  induction S as [|c S IH]; intros Hno; cbn [app strcmp]; [lia |].
  apply not_elem_of_cons in Hno as [Hc Hno].
  rewrite Z.eqb_refl.
  replace (c =? 0) with false by (symmetry; apply Z.eqb_neq; congruence).
  by apply IH.
Qed.

(** X6.  A shorter message after a longer one is not recognised: when the
    cell of [SPI_data] right behind the new message still holds a non-zero
    byte [x] of an earlier message, [SPI_strcmp] of [SPI_data] with the
    very text that was sent returns [x], not 0. *)
Theorem X6_stale_tail_defeats_SPI_strcmp (cap : Z) (S : list Z) (st : state) (x : Z) :
  cap <= 2 ^ 8 ->
  framable cap S ->
  0 ∉ S ->
  quiescent cap st ->
  SPI_data st !! length S = Some x ->
  x <> 0 ->
  exists st',
    run (deliver S) st = Ok st' /\
    SPI_strcmp (SPI_data st') S = x /\
    SPI_strcmp (SPI_data st') S <> 0.
Proof.
  intros Hcap HS Hzero Hq Hx Hx0.
  destruct (run_deliver_quiescent cap S st Hcap HS Hq) as (st' & Hrun & Hdata & _).
  exists st'. split; [done |].
  assert (Hcmp : SPI_strcmp (SPI_data st') S = x).
  { rewrite Hdata. unfold SPI_strcmp.
    rewrite (drop_S _ _ _ Hx). by apply strcmp_prefix. }
  split; [done | by rewrite Hcmp].
Qed.

Lemma X6_stale_tail_defeats_SPI_strcmp_witness :
  exists st',
    run (deliver [79; 78])
      (mkState [84; 79; 71; 71; 76; 69; 0; 0] [0; 0; 0; 0; 0; 0; 13; 0] 0 false 0)
    = Ok st' /\
    SPI_strcmp (SPI_data st') [79; 78] = 71 /\
    SPI_strcmp (SPI_data st') [79; 78] <> 0.
Proof.
  apply (X6_stale_tail_defeats_SPI_strcmp 8 [79; 78]
           (mkState [84; 79; 71; 71; 76; 69; 0; 0] [0; 0; 0; 0; 0; 0; 13; 0]
              0 false 0) 71).
  - lia.
  - split; [not_in_list | cbn; lia].
  - rewrite !not_elem_of_cons. repeat split; try lia. apply not_elem_of_nil.
  - repeat split.
  - reflexivity.
  - lia.
Defined.

(** ** Polling late *)

(** Two frames received back to back from a quiescent state. *)
Lemma run_ISR_two_frames (cap : Z) (S1 S2 : list Z) (st : state) :
  cap <= 2 ^ 8 ->
  framable cap S1 ->
  framable cap S2 ->
  quiescent cap st ->
  exists tail,
    run_ISR ((S1 ++ [DATA_END_CHAR]) ++ S2 ++ [DATA_END_CHAR]) st
    = Ok (mkState (SPI_data st) (S2 ++ DATA_END_CHAR :: tail) 0 true
            (Z.of_nat (length S1 + length S2))) /\
    length (S2 ++ DATA_END_CHAR :: tail) = Z.to_nat cap.
Proof.
  intros Hcap [Hno1 Hlen1] [Hno2 Hlen2] (Hidx & Hflag & Hrb & Hd & Hb).
  rewrite run_ISR_app, run_ISR_frame by (done || lia). cbn [bind].
  rewrite run_ISR_frame; cbn [dataIndex receivedBytes SPI_buffer SPI_data];
    try done.
  - eexists. split.
    + do 2 f_equal. rewrite Hrb. unfold to_size_t.
      rewrite (Z.mod_small (0 + _)) by lia. rewrite Z.mod_small; lia.
    + rewrite length_app. cbn [length]. rewrite length_drop, length_app.
      cbn [length]. rewrite length_drop. lia.
  - unfold to_size_t. apply Z.mod_pos_bound. lia.
  - rewrite length_app. cbn [length]. rewrite length_drop. lia.
  - lia.
Qed.

(** X7.  Of two messages received before the main loop polls, only the
    later one is handed over: when their payloads together fit the arrays,
    the single call of [SPI_readAll] returns true with the second message at
    the start of [SPI_data], followed by as many zeroes as the first message
    had bytes, and leaves nothing pending; the first message is lost. *)
Theorem X7_earlier_of_two_pending_messages_is_lost (cap : Z) (S1 S2 : list Z)
    (st : state) :
  cap <= 2 ^ 8 ->
  framable cap S1 ->
  framable cap S2 ->
  Z.of_nat (length S1 + length S2) <= cap ->
  quiescent cap st ->
  exists st1 st',
    run_ISR ((S1 ++ [DATA_END_CHAR]) ++ S2 ++ [DATA_END_CHAR]) st = Ok st1 /\
    SPI_readAll st1 = Ok (true, st') /\
    SPI_data st'
    = S2 ++ replicate (length S1) 0 ++ drop (length S1 + length S2) (SPI_data st) /\
    SPI_readAll st' = Ok (false, st').
Proof.
  intros Hcap HS1 HS2 Hsum Hq.
  destruct (run_ISR_two_frames cap S1 S2 st Hcap HS1 HS2 Hq) as (tail & Hrun & Hlen).
  destruct HS2 as [Hno2 Hlen2]. destruct Hq as (Hidx & Hflag & Hrb & Hd & Hb).
  eexists _, _. split; [exact Hrun |].
  split; [| split].
  - apply (SPI_readAll_pending _ S2 tail (length S1 + length S2));
      cbn [dataReceived SPI_buffer receivedBytes SPI_data]; try done; lia.
  - cbn [SPI_data]. do 2 f_equal. f_equal. lia.
  - by apply SPI_readAll_idle.
Qed.

Lemma X7_earlier_of_two_pending_messages_is_lost_witness :
  exists st1 st',
    run_ISR (([65; 66] ++ [DATA_END_CHAR]) ++ [67] ++ [DATA_END_CHAR]) (init_state 6)
    = Ok st1 /\
    SPI_readAll st1 = Ok (true, st') /\
    SPI_data st'
    = [67] ++ replicate (length [65; 66]) 0
      ++ drop (length [65; 66] + length [67]) (SPI_data (init_state 6)) /\
    SPI_readAll st' = Ok (false, st').
Proof.
  apply (X7_earlier_of_two_pending_messages_is_lost 6 [65; 66] [67] (init_state 6)).
  - lia.
  - split; [not_in_list | cbn; lia].
  - split; [not_in_list | cbn; lia].
  - cbn. lia.
  - repeat split.
Defined.

(** X8.  When two messages, each of which fits, are pending and their
    payloads together are longer than the arrays, [SPI_readAll] flushes
    [receivedBytes] cells of [SPI_data] and so writes past its end, at the
    index that equals the size of the array. *)
Theorem X8_two_pending_messages_overrun_SPI_data (cap : Z) (S1 S2 : list Z)
    (st : state) :
  cap <= 2 ^ 8 ->
  framable cap S1 ->
  framable cap S2 ->
  cap < Z.of_nat (length S1 + length S2) ->
  quiescent cap st ->
  exists st1,
    run_ISR ((S1 ++ [DATA_END_CHAR]) ++ S2 ++ [DATA_END_CHAR]) st = Ok st1 /\
    SPI_readAll st1 = Fault (OutOfBounds ARR_SPI_data cap).
Proof.
  intros Hcap HS1 HS2 Hsum Hq.
  destruct (run_ISR_two_frames cap S1 S2 st Hcap HS1 HS2 Hq) as (tail & Hrun & Hlen).
  destruct Hq as (Hidx & Hflag & Hrb & Hd & Hb). destruct HS1 as [_ Hlen1].
  eexists. split; [exact Hrun |].
  unfold SPI_readAll. cbn [dataReceived receivedBytes SPI_data].
  rewrite flushBuffer_overrun by lia. cbn [bind]. do 2 f_equal. lia.
Qed.

Lemma X8_two_pending_messages_overrun_SPI_data_witness :
  exists st1,
    run_ISR (([65; 66; 67] ++ [DATA_END_CHAR]) ++ [68; 69] ++ [DATA_END_CHAR])
      (init_state 4)
    = Ok st1 /\
    SPI_readAll st1 = Fault (OutOfBounds ARR_SPI_data 4).
Proof.
  apply (X8_two_pending_messages_overrun_SPI_data 4 [65; 66; 67] [68; 69]
           (init_state 4)).
  - lia.
  - split; [not_in_list | cbn; lia].
  - split; [not_in_list | cbn; lia].
  - cbn. lia.
  - repeat split.
Defined.

Lemma not_elem_of_drop (x : Z) (n : nat) (l : list Z) : x ∉ l -> x ∉ drop n l.
Proof. intros Hno Hin. apply Hno. by apply (subseteq_drop n l). Qed.

(** The bytes of a second message that arrive before the first is polled
    overwrite the start of the first in the working buffer. *)
Lemma run_ISR_frame_then_payload (cap : Z) (S1 S2 : list Z) (st : state) :
  cap <= 2 ^ 8 ->
  framable cap S1 ->
  DATA_END_CHAR ∉ S2 ->
  Z.of_nat (length S2) < cap ->
  quiescent cap st ->
  run_ISR ((S1 ++ [DATA_END_CHAR]) ++ S2) st
  = Ok (mkState (SPI_data st)
          (S2 ++ drop (length S2)
                   (S1 ++ DATA_END_CHAR
                       :: drop (Datatypes.S (length S1)) (SPI_buffer st)))
          (Z.of_nat (length S2)) true (Z.of_nat (length S1 + length S2))).
Proof.
  intros Hcap [Hno1 Hlen1] Hno2 Hlen2 (Hidx & Hflag & Hrb & Hd & Hb).
  rewrite run_ISR_app, run_ISR_frame by (done || lia). cbn [bind].
  set (buf := S1 ++ DATA_END_CHAR :: drop (Datatypes.S (length S1)) (SPI_buffer st)).
  assert (Hbuf : length buf = Z.to_nat cap).
  { unfold buf. rewrite length_app. cbn [length]. rewrite length_drop. lia. }
  rewrite (run_ISR_payload S2 _ [] (take (length S2) buf) (drop (length S2) buf));
    cbn [SPI_buffer SPI_data dataIndex dataReceived receivedBytes app length];
    try done; try lia.
  - do 2 f_equal. rewrite Hrb. unfold to_size_t.
    rewrite (Z.mod_small (0 + _)) by lia. rewrite Z.mod_small; lia.
  - by rewrite take_drop.
  - rewrite length_take. lia.
  - unfold to_size_t. apply Z.mod_pos_bound. lia.
Qed.

(** X9.  A poll that comes after the first bytes of the next message mixes
    two messages: with a message pending and a part of the next one, no
    longer than the first, already received, [SPI_readAll] returns true and
    hands over the bytes of the second message followed by the rest of the
    first; the cursor stays in the middle of the second message. *)
Theorem X9_late_poll_mixes_two_messages (cap : Z) (S1 S2 : list Z) (st : state) :
  cap <= 2 ^ 8 ->
  framable cap S1 ->
  DATA_END_CHAR ∉ S2 ->
  (length S2 <= length S1)%nat ->
  Z.of_nat (length S1 + length S2) <= cap ->
  quiescent cap st ->
  exists st1 st',
    run_ISR ((S1 ++ [DATA_END_CHAR]) ++ S2) st = Ok st1 /\
    SPI_readAll st1 = Ok (true, st') /\
    take (length S1) (SPI_data st') = S2 ++ drop (length S2) S1 /\
    dataIndex st' = Z.of_nat (length S2).
Proof.
  intros Hcap HS1 Hno2 Hle Hsum Hq.
  pose proof HS1 as [Hno1 Hlen1]. pose proof Hq as (Hidx & Hflag & Hrb & Hd & Hb).
  eexists _, _. split; [apply (run_ISR_frame_then_payload cap); (done || lia) |].
  rewrite drop_app_le by lia.
  assert (Hmix : length (S2 ++ drop (length S2) S1) = length S1)
    by (rewrite length_app, length_drop; lia).
  split; [| split].
  - apply (SPI_readAll_pending _ (S2 ++ drop (length S2) S1)
             (drop (Datatypes.S (length S1)) (SPI_buffer st))
             (length S1 + length S2));
      cbn [dataReceived SPI_buffer receivedBytes SPI_data]; try done; try lia.
    + by rewrite <- app_assoc.
    + rewrite not_elem_of_app. split; [done | by apply not_elem_of_drop].
    + rewrite length_app, length_app, length_drop. cbn [length].
      rewrite length_drop. lia.
  - cbn [SPI_data]. rewrite <- Hmix at 1. by rewrite take_app_length.
  - done.
Qed.

Lemma X9_late_poll_mixes_two_messages_witness :
  exists st1 st',
    run_ISR (([84; 79; 71; 71; 76; 69] ++ [DATA_END_CHAR]) ++ [79; 78])
      (init_state 10)
    = Ok st1 /\
    SPI_readAll st1 = Ok (true, st') /\
    take (length [84; 79; 71; 71; 76; 69]) (SPI_data st')
    = [79; 78] ++ drop (length [79; 78]) [84; 79; 71; 71; 76; 69] /\
    dataIndex st' = Z.of_nat (length [79; 78]).
Proof.
  apply (X9_late_poll_mixes_two_messages 10 [84; 79; 71; 71; 76; 69] [79; 78]
           (init_state 10)).
  - lia.
  - split; [not_in_list | cbn; lia].
  - not_in_list.
  - cbn. lia.
  - cbn. lia.
  - repeat split.
Defined.

(** The [while] loop on a working buffer without terminator cell. *)
Lemma copy_loop_runs_off (rest : list Z) : forall fuel pre dpre dmid dpost,
  DATA_END_CHAR ∉ rest ->
  length dpre = length pre ->
  length dmid = length rest ->
  (length rest < fuel)%nat ->
  copy_loop fuel (Z.of_nat (length pre)) (pre ++ rest) (dpre ++ dmid ++ dpost)
  = Fault (OutOfBounds ARR_SPI_buffer (Z.of_nat (length (pre ++ rest)))).
Proof.
  induction rest as [|b rest IH]; intros fuel pre dpre dmid dpost Hno Hpre Hmid Hfuel.
  - destruct fuel; [cbn in Hfuel; lia |]. cbn [copy_loop].
    rewrite app_nil_r, load_fault by lia. done.
  - destruct dmid as [|d dmid]; [done |].
    destruct fuel; [cbn in Hfuel; lia |].
    apply not_elem_of_cons in Hno as [Hb Hno].
    cbn [copy_loop app]. rewrite load_middle by done. cbn [bind].
    replace (b =? DATA_END_CHAR) with false
      by (symmetry; apply Z.eqb_neq; congruence).
    cbn [negb]. rewrite store_middle by lia. cbn [bind].
    replace (Z.of_nat (length pre) + 1) with (Z.of_nat (length (pre ++ [b])))
      by (rewrite length_app; cbn [length]; lia).
    replace (pre ++ b :: rest) with ((pre ++ [b]) ++ rest)
      by (by rewrite <- app_assoc).
    replace (dpre ++ b :: dmid ++ dpost) with ((dpre ++ [b]) ++ dmid ++ dpost)
      by (by rewrite <- app_assoc).
    apply IH; try done.
    + rewrite !length_app. cbn [length]. lia.
    + cbn [length] in Hmid. lia.
    + cbn [length] in Hfuel. lia.
Qed.

(** X10.  A poll that comes after the next message has overwritten the
    terminator of the pending one finds no terminator to stop at: starting
    from the initial state, with a message pending and a longer part of the
    next one received, [SPI_readAll] copies the whole working buffer and
    reads past its end. *)
Theorem X10_late_poll_reads_past_the_buffer (cap : Z) (S1 S2 : list Z) :
  cap <= 2 ^ 8 ->
  framable cap S1 ->
  framable cap S2 ->
  (length S1 < length S2)%nat ->
  Z.of_nat (length S1 + length S2) <= cap ->
  exists st1,
    run_ISR ((S1 ++ [DATA_END_CHAR]) ++ S2) (init_state cap) = Ok st1 /\
    dataReceived st1 = true /\
    SPI_readAll st1 = Fault (OutOfBounds ARR_SPI_buffer cap).
Proof.
  intros Hcap HS1 [Hno2 Hlen2] Hlt Hsum. pose proof HS1 as [Hno1 Hlen1].
  assert (Hq : quiescent cap (init_state cap))
    by (unfold quiescent; cbn; by rewrite !length_replicate).
  eexists. split; [apply (run_ISR_frame_then_payload cap); (done || lia) |].
  split; [done |].
  cbn [init_state SPI_buffer SPI_data].
  rewrite drop_replicate, drop_app_ge by lia.
  replace (length S2 - length S1)%nat
    with (Datatypes.S (length S2 - length S1 - 1)) by lia.
  cbn [drop]. rewrite drop_replicate.
  set (k := (Z.to_nat cap - Datatypes.S (length S1) - (length S2 - length S1 - 1))%nat).
  unfold SPI_readAll. cbn [dataReceived receivedBytes SPI_data SPI_buffer].
  rewrite flushBuffer_prefix by (rewrite length_replicate; lia). cbn [bind].
  rewrite Nat2Z.id, drop_replicate.
  assert (Hlen : length (S2 ++ replicate k 0) = Z.to_nat cap)
    by (rewrite length_app, length_replicate; unfold k; lia).
  pose proof (copy_loop_runs_off (S2 ++ replicate k 0)
                (Datatypes.S (length (S2 ++ replicate k 0))) [] []
                (replicate (Z.to_nat cap) 0) []) as Hcopy.
  cbn [app length] in Hcopy. change (Z.of_nat 0) with 0 in Hcopy.
  rewrite app_nil_r in Hcopy.
  replace (replicate (length S1 + length S2) 0
           ++ replicate (Z.to_nat cap - (length S1 + length S2)) 0)
    with (replicate (Z.to_nat cap) 0)
    by (rewrite <- replicate_add; f_equal; lia).
  rewrite Hcopy; cbn [bind].
  - do 2 f_equal. lia.
  - rewrite not_elem_of_app. split; [done |].
    intros Hin. apply elem_of_replicate in Hin as [Hin _]. done.
  - done.
  - by rewrite length_replicate.
  - lia.
Qed.

Lemma X10_late_poll_reads_past_the_buffer_witness :
  exists st1,
    run_ISR (([79; 78] ++ [DATA_END_CHAR]) ++ [84; 79; 71]) (init_state 10) = Ok st1 /\
    dataReceived st1 = true /\
    SPI_readAll st1 = Fault (OutOfBounds ARR_SPI_buffer 10).
Proof.
  apply (X10_late_poll_reads_past_the_buffer 10 [79; 78] [84; 79; 71]).
  - lia.
  - split; [not_in_list | cbn; lia].
  - split; [not_in_list | cbn; lia].
  - cbn. lia.
  - cbn. lia.
Defined.

(** * Further properties of the helpers *)

(** ** hexArrayToUint64_t *)

Lemma hexArray_loop_prefix (rest : list Z) : forall pre post acc,
  Forall is_byte rest ->
  0 <= acc < 2 ^ 64 ->
  hexArray_loop (length rest) (Z.of_nat (length pre)) (pre ++ rest ++ post) acc
  = Ok ((acc * 2 ^ (8 * Z.of_nat (length rest)) + big_endian rest) mod 2 ^ 64).
Proof.
  induction rest as [|b rest IH]; intros pre post acc Hbytes Hacc.
  - cbn. rewrite Z.mul_1_r, Z.add_0_r, Z.mod_small by lia. done.
  - apply Forall_cons in Hbytes as [Hb Hbytes].
    cbn [length hexArray_loop app]. rewrite load_middle by done. cbn [bind].
    replace (Z.of_nat (length pre) + 1) with (Z.of_nat (length (pre ++ [b])))
      by (rewrite length_app; cbn [length]; lia).
    replace (pre ++ b :: rest ++ post) with ((pre ++ [b]) ++ rest ++ post)
      by (by rewrite <- app_assoc).
    unfold to_uint64. rewrite lor_shiftl_add by (done || lia).
    rewrite IH; [| done | apply Z.mod_pos_bound; lia].
    f_equal. rewrite big_endian_cons by done.
    rewrite <- Z.add_mod_idemp_l, Z.mul_mod_idemp_l by lia.
    rewrite Z.add_mod_idemp_l by lia. f_equal.
    replace (8 * Z.of_nat (S (length rest)))
      with (8 + 8 * Z.of_nat (length rest)) by lia.
    rewrite Z.pow_add_r by lia. lia.
Qed.

Lemma hexArrayToUint64_t_prefix (array : list Z) (size : Z) :
  0 <= size <= Z.of_nat (length array) ->
  Forall is_byte (take (Z.to_nat size) array) ->
  hexArrayToUint64_t array size
  = Ok (big_endian (take (Z.to_nat size) array) mod 2 ^ 64).
Proof.
  intros Hsize Hbytes. unfold hexArrayToUint64_t.
  pose proof (hexArray_loop_prefix (take (Z.to_nat size) array) []
                (drop (Z.to_nat size) array) 0 Hbytes) as H.
  cbn [app length] in H. change (Z.of_nat 0) with 0 in H.
  rewrite take_drop, length_take in H.
  replace (Z.to_nat size `min` length array)%nat with (Z.to_nat size) in H by lia.
  rewrite H by lia. by rewrite Z.mul_0_l.
Qed.

Lemma hexArray_loop_overrun (n : nat) : forall pre rest acc,
  (length rest < n)%nat ->
  hexArray_loop n (Z.of_nat (length pre)) (pre ++ rest) acc
  = Fault (OutOfBounds ARR_array (Z.of_nat (length (pre ++ rest)))).
Proof.
  induction n as [|n IH]; intros pre rest acc Hn; [lia |].
  cbn [hexArray_loop]. destruct rest as [|b rest].
  - rewrite app_nil_r, load_fault by lia. done.
  - rewrite load_middle by done. cbn [bind].
    replace (Z.of_nat (length pre) + 1) with (Z.of_nat (length (pre ++ [b])))
      by (rewrite length_app; cbn [length]; lia).
    replace (pre ++ b :: rest) with ((pre ++ [b]) ++ rest)
      by (by rewrite <- app_assoc).
    apply IH. cbn [length] in Hn. lia.
Qed.

(** X11.  [hexArrayToUint64_t(array, size)] reads the first [size] cells
    and nothing else: with [size] within the array the result is the
    big-endian value (modulo 2^64) of that prefix, whatever the cells behind
    it hold; with [size] larger than the array it reads past the end. *)
Theorem X11_hexArrayToUint64_t_reads_size_cells (array : list Z) (size : Z) :
  (0 <= size <= Z.of_nat (length array) ->
   Forall is_byte (take (Z.to_nat size) array) ->
   hexArrayToUint64_t array size
   = Ok (big_endian (take (Z.to_nat size) array) mod 2 ^ 64)) /\
  (Z.of_nat (length array) < size ->
   hexArrayToUint64_t array size
   = Fault (OutOfBounds ARR_array (Z.of_nat (length array)))).
Proof.
  split; [apply hexArrayToUint64_t_prefix |].
  intros Hsize. unfold hexArrayToUint64_t.
  apply (hexArray_loop_overrun _ [] array 0). lia.
Qed.

Lemma X11_hexArrayToUint64_t_reads_size_cells_witness :
  hexArrayToUint64_t [0x12; 0x34; 0x56; 0x78] 2
  = Ok (big_endian (take (Z.to_nat 2) [0x12; 0x34; 0x56; 0x78]) mod 2 ^ 64) /\
  hexArrayToUint64_t [0x12; 0x34] 3
  = Fault (OutOfBounds ARR_array (Z.of_nat (length [0x12; 0x34]))).
Proof.
  split.
  - apply (X11_hexArrayToUint64_t_reads_size_cells [0x12; 0x34; 0x56; 0x78] 2).
    + cbn. lia.
    + repeat constructor; unfold is_byte; lia.
  - apply (X11_hexArrayToUint64_t_reads_size_cells [0x12; 0x34] 3). cbn. lia.
Defined.

Lemma big_endian_app (pre suf : list Z) :
  Forall is_byte pre -> Forall is_byte suf ->
  big_endian (pre ++ suf)
  = big_endian pre * 2 ^ (8 * Z.of_nat (length suf)) + big_endian suf.
Proof.
  intros Hpre Hsuf. induction Hpre as [|b pre Hb Hpre IH]; [cbn; lia |].
  cbn [app]. rewrite !big_endian_cons by (done || by apply Forall_app).
  rewrite IH, length_app.
  replace (8 * Z.of_nat (length pre + length suf))
    with (8 * Z.of_nat (length pre) + 8 * Z.of_nat (length suf)) by lia.
  rewrite Z.pow_add_r by lia. lia.
Qed.

(** X12.  Beyond 8 bytes [hexArrayToUint64_t] keeps the last 8 only: the
    bytes in front of them are shifted out of the 64 bits and have no
    influence on the result. *)
Theorem X12_hexArrayToUint64_t_keeps_last_8_bytes (pre last : list Z) :
  Forall is_byte pre ->
  Forall is_byte last ->
  length last = 8%nat ->
  hexArrayToUint64_t (pre ++ last) (Z.of_nat (length (pre ++ last)))
  = Ok (big_endian last).
Proof.
  intros Hpre Hlast Hlen.
  rewrite hexArrayToUint64_t_value by (by apply Forall_app). f_equal.
  rewrite big_endian_app by done. rewrite Hlen.
  change (2 ^ (8 * Z.of_nat 8)) with (2 ^ 64).
  rewrite Z.add_comm, Z.mod_add by lia.
  pose proof (big_endian_bounds last Hlast) as Hb. rewrite Hlen in Hb.
  by apply Z.mod_small.
Qed.

Lemma X12_hexArrayToUint64_t_keeps_last_8_bytes_witness :
  hexArrayToUint64_t ([0xAA; 0xBB] ++ [1; 2; 3; 4; 5; 6; 7; 8])
    (Z.of_nat (length ([0xAA; 0xBB] ++ [1; 2; 3; 4; 5; 6; 7; 8])))
  = Ok (big_endian [1; 2; 3; 4; 5; 6; 7; 8]).
Proof.
  apply (X12_hexArrayToUint64_t_keeps_last_8_bytes [0xAA; 0xBB]
           [1; 2; 3; 4; 5; 6; 7; 8]).
  - repeat constructor; unfold is_byte; lia.
  - repeat constructor; unfold is_byte; lia.
  - reflexivity.
Defined.

(** X13.  The hex command path end to end: the bytes [SPI_transmitHex]
    sends for a value of [numBytes] bytes, none of them the terminator
    byte, received by the handler from any quiescent state and polled,
    are packed by [hexArrayToUint64_t(SPI_data, numBytes)] to the value
    again, whatever an earlier message left further back in [SPI_data]. *)
Theorem X13_hex_number_end_to_end (cap : Z) (st : state)
    (SS_PORTx SS_PORTxn SSmode numBytes value : Z) :
  cap <= 2 ^ 8 ->
  1 <= numBytes <= 8 ->
  numBytes < cap ->
  0 <= value < 2 ^ (8 * numBytes) ->
  DATA_END_CHAR ∉ hex_bytes (Z.to_nat numBytes) value ->
  quiescent cap st ->
  exists st1 st',
    run_ISR (bus_bytes (SPI_transmitHex SS_PORTx SS_PORTxn SSmode numBytes value)) st
    = Ok st1 /\
    SPI_readAll st1 = Ok (true, st') /\
    hexArrayToUint64_t (SPI_data st') numBytes = Ok value.
Proof.
  intros Hcap Hn Hncap Hv Hno Hq.
  set (S := hex_bytes (Z.to_nat numBytes) value) in *.
  assert (HlenS : length S = Z.to_nat numBytes) by apply hex_bytes_length.
  destruct (frame_then_read_quiescent cap S st Hcap) as
    (st1 & st' & Hrun & Hread & Htake & _ & Hq'); [by split; [| lia] | done |].
  exists st1, st'. rewrite bus_bytes_SPI_transmitHex.
  split; [done |]. split; [done |].
  destruct Hq' as (_ & _ & _ & Hd & _).
  rewrite hexArrayToUint64_t_prefix; rewrite <- ?HlenS, ?Htake; try lia.
  - f_equal. unfold S. rewrite big_endian_hex_bytes, Z2Nat.id by lia.
    rewrite (Z.mod_small value) by done. apply Z.mod_small.
    split; [lia |]. eapply Z.lt_le_trans; [apply Hv |].
    apply Z.pow_le_mono_r; lia.
  - apply hex_bytes_bytes.
Qed.

Lemma X13_hex_number_end_to_end_witness :
  exists st1 st',
    run_ISR (bus_bytes (SPI_transmitHex 0xB5 4 DEFAULT_SS_CONTROL 2 0x4321))
      (mkState [84; 79; 71; 71; 76; 69; 0; 0] [0; 0; 0; 0; 0; 0; 13; 0] 0 false 0)
    = Ok st1 /\
    SPI_readAll st1 = Ok (true, st') /\
    hexArrayToUint64_t (SPI_data st') 2 = Ok 0x4321.
Proof.
  apply (X13_hex_number_end_to_end 8).
  - lia.
  - lia.
  - lia.
  - lia.
  - change (hex_bytes (Z.to_nat 2) 0x4321) with [67; 33]. not_in_list.
  - repeat split.
Defined.

(** ** SPI_strcmp *)

Lemma strcmp_c_str (a : list Z) : forall b, strcmp a b = strcmp (c_str a) (c_str b).
Proof.
  induction a as [|c1 a IH]; intros [|c2 b]; cbn [strcmp c_str]; [done | | |].
  - destruct (Z.eqb_spec c2 0) as [-> | Hne]; [done |]. cbn [strcmp]. lia.
  - destruct (Z.eqb_spec c1 0) as [-> | Hne]; [done |]. cbn [strcmp]. lia.
  - destruct (Z.eqb_spec c1 c2) as [-> | Hne].
    + destruct (Z.eqb_spec c2 0) as [-> | Hne0]; [done |].
      cbn [strcmp]. rewrite Z.eqb_refl.
      replace (c2 =? 0) with false by (symmetry; by apply Z.eqb_neq).
      apply IH.
    + destruct (Z.eqb_spec c1 0) as [-> | H1], (Z.eqb_spec c2 0) as [-> | H2];
        cbn [strcmp]; try lia.
      replace (c1 =? c2) with false by (symmetry; by apply Z.eqb_neq). done.
Qed.

Lemma strcmp_first_mismatch (p : list Z) (x y : Z) (a b : list Z) :
  0 ∉ p -> x <> y -> strcmp (p ++ x :: a) (p ++ y :: b) = x - y.
Proof.
  intros Hp Hxy. induction p as [|c p IH]; cbn [app strcmp].
  - by replace (x =? y) with false by (symmetry; by apply Z.eqb_neq).
  - apply not_elem_of_cons in Hp as [Hc Hp]. rewrite Z.eqb_refl.
    replace (c =? 0) with false by (symmetry; apply Z.eqb_neq; congruence).
    by apply IH.
Qed.



(** X15.  [SPI_strcmp] looks at nothing behind the terminators: its result
    is the result on the two strings cut at their first NUL. *)
Theorem X15_SPI_strcmp_ignores_bytes_after_NUL (a b : list Z) :
  SPI_strcmp a b = SPI_strcmp (c_str a) (c_str b).
Proof. apply strcmp_c_str. Qed.

Lemma strcmp_trans (a : list Z) : forall b c,
  Forall is_byte a -> Forall is_byte b -> Forall is_byte c ->
  strcmp a b < 0 -> strcmp b c < 0 -> strcmp a c < 0.
Proof.
  unfold is_byte.
  induction a as [|c1 a IH]; intros [|c2 b] [|c3 c] Ha Hb Hc;
    repeat match goal with
           | H : Forall _ (_ :: _) |- _ => apply Forall_cons in H as [? ?]
           end;
    cbn [strcmp];
    repeat match goal with
           | |- context [Z.eqb ?u ?v] => destruct (Z.eqb_spec u v); subst
           end;
    try lia.
  intros Hab Hbc. by apply (IH b c).
Qed.

(** X16.  On strings of bytes [SPI_strcmp] is an order: if it puts [a]
    before [b] and [b] before [c] (negative results), it puts [a] before
    [c]. *)
Theorem X16_SPI_strcmp_transitive (a b c : list Z) :
  Forall is_byte a -> Forall is_byte b -> Forall is_byte c ->
  SPI_strcmp a b < 0 -> SPI_strcmp b c < 0 -> SPI_strcmp a c < 0.
Proof. apply strcmp_trans. Qed.

Lemma X16_SPI_strcmp_transitive_witness :
  SPI_strcmp [79; 70; 70] [84; 79; 71; 71; 76; 69] < 0.
Proof.
  apply (X16_SPI_strcmp_transitive [79; 70; 70] [79; 78] [84; 79; 71; 71; 76; 69]).
  - repeat constructor; unfold is_byte; lia.
  - repeat constructor; unfold is_byte; lia.
  - repeat constructor; unfold is_byte; lia.
  - cbn. lia.
  - cbn. lia.
Defined.

(** * Further properties of the master side *)

(** ** SPI_transmitString *)

Lemma transmitString_loop_bytes data :
  transmitString_loop data = map SPDR_write (map to_uint8 (c_str data)).
Proof.
  induction data as [|c data IH]; cbn [transmitString_loop c_str map]; [done |].
  destruct (c =? 0); [done |]. cbn [map SPI_masterPutUint8_t app]. by rewrite IH.
Qed.

Lemma bus_bytes_SPI_transmitString p n m data :
  bus_bytes (SPI_transmitString p n m data)
  = map to_uint8 (c_str data) ++ [DATA_END_CHAR].
Proof.
  unfold SPI_transmitString, bus_bytes. cbn [app flat_map].
  rewrite transmitString_loop_bytes, flat_map_app.
  fold (bus_bytes (map SPDR_write (map to_uint8 (c_str data)))).
  by rewrite bus_bytes_map_SPDR_write.
Qed.

(** X17.  Whatever the port, the pin and the mode, [SPI_transmitString]
    puts on the bus the chars of the string up to its first NUL, each
    converted to [uint8_t], and then the terminator byte: nothing behind an
    embedded NUL is sent, and an empty string sends the terminator alone. *)
Theorem X17_SPI_transmitString_sends_c_str (SS_PORTx SS_PORTxn SSmode : Z)
    (data : list Z) :
  bus_bytes (SPI_transmitString SS_PORTx SS_PORTxn SSmode data)
  = map to_uint8 (c_str data) ++ [DATA_END_CHAR] /\
  bus_bytes (SPI_transmitString SS_PORTx SS_PORTxn SSmode (0 :: data))
  = [DATA_END_CHAR].
Proof.
  split; [apply bus_bytes_SPI_transmitString |].
  by rewrite bus_bytes_SPI_transmitString.
Qed.

Lemma c_str_no_NUL (s : list Z) : 0 ∉ c_str s.
Proof.
  induction s as [|c s IH]; cbn [c_str]; [apply not_elem_of_nil |].
  destruct (Z.eqb_spec c 0); [apply not_elem_of_nil |].
  apply not_elem_of_cons. split; [congruence | done].
Qed.

Lemma c_str_app_NUL (T rest : list Z) : 0 ∉ T -> c_str (T ++ 0 :: rest) = T.
Proof.
  induction T as [|c T IH]; intros Hno; cbn [app c_str]; [done |].
  apply not_elem_of_cons in Hno as [Hc Hno].
  replace (c =? 0) with false by (symmetry; apply Z.eqb_neq; congruence).
  by rewrite IH.
Qed.

Lemma c_str_idemp (s : list Z) : c_str (c_str s) = c_str s.
Proof.
  induction s as [|c s IH]; cbn [c_str]; [done |].
  destruct (Z.eqb_spec c 0); [done |]. cbn [c_str].
  replace (c =? 0) with false by (symmetry; by apply Z.eqb_neq).
  by rewrite IH.
Qed.

Lemma map_to_uint8_bytes (l : list Z) : Forall is_byte l -> map to_uint8 l = l.
Proof.
  induction 1 as [|b l Hb _ IH]; cbn [map]; [done |].
  rewrite IH. unfold to_uint8. by rewrite Z.mod_small.
Qed.

(** X18.  The string command path end to end: the bytes
    [SPI_transmitString] sends for a text of bytes without terminator byte,
    received by the handler from a quiescent state and polled, compare
    equal to that text with [SPI_strcmp], provided the cell of [SPI_data]
    right behind the text is zero (as it is unless a longer message came
    before). *)
Theorem X18_string_command_end_to_end (cap : Z) (st : state)
    (SS_PORTx SS_PORTxn SSmode : Z) (data : list Z) :
  cap <= 2 ^ 8 ->
  Forall is_byte (c_str data) ->
  framable cap (c_str data) ->
  quiescent cap st ->
  SPI_data st !! length (c_str data) = Some 0 ->
  exists st1 st',
    run_ISR (bus_bytes (SPI_transmitString SS_PORTx SS_PORTxn SSmode data)) st
    = Ok st1 /\
    SPI_readAll st1 = Ok (true, st') /\
    SPI_strcmp (SPI_data st') data = 0.
Proof.
  intros Hcap Hbytes Hfr Hq Hzero.
  destruct (frame_then_read_quiescent cap (c_str data) st Hcap Hfr Hq)
    as (st1 & st' & Hrun & Hread & Htake & Hdrop & _).
  exists st1, st'.
  rewrite bus_bytes_SPI_transmitString, map_to_uint8_bytes by done.
  split; [done |]. split; [done |].
  unfold SPI_strcmp. apply strcmp_zero_iff.
  rewrite <- (take_drop (length (c_str data)) (SPI_data st')), Htake, Hdrop.
  rewrite (drop_S _ _ _ Hzero). apply c_str_app_NUL, c_str_no_NUL.
Qed.

Lemma X18_string_command_end_to_end_witness :
  exists st1 st',
    run_ISR (bus_bytes (SPI_transmitString 0xB5 4 DEFAULT_SS_CONTROL
                          (chars_of_string "TOGGLE")))
      (init_state DATA_LENGTH)
    = Ok st1 /\
    SPI_readAll st1 = Ok (true, st') /\
    SPI_strcmp (SPI_data st') (chars_of_string "TOGGLE") = 0.
Proof.
  apply (X18_string_command_end_to_end DATA_LENGTH).
  - vm_compute. discriminate.
  - change (c_str (chars_of_string "TOGGLE")) with [84; 79; 71; 71; 76; 69].
    repeat constructor; unfold is_byte; lia.
  - change (c_str (chars_of_string "TOGGLE")) with [84; 79; 71; 71; 76; 69].
    split; [not_in_list | vm_compute; reflexivity].
  - repeat split.
  - reflexivity.
Defined.

(** ** The slave-select guard and the idle level of the line *)

Lemma byte_eq_bits (a b : Z) :
  is_byte a -> is_byte b ->
  (forall k, 0 <= k < 8 -> Z.testbit a k = Z.testbit b k) -> a = b.
Proof.
  unfold is_byte. intros Ha Hb Hbits.
  rewrite <- (Z.mod_small a (2 ^ 8)), <- (Z.mod_small b (2 ^ 8)) by done.
  apply Z.bits_inj'. intros k Hk. rewrite !Z.testbit_mod_pow2 by lia.
  destruct (Z.ltb_spec k 8); [| done]. cbn [andb]. apply Hbits. lia.
Qed.

Lemma to_uint8_is_byte x : is_byte (to_uint8 x).
Proof. unfold is_byte, to_uint8. apply Z.mod_pos_bound. lia. Qed.

Lemma pullHigh_idle p n :
  is_byte p -> 0 <= n < 8 -> Z.testbit p n = true ->
  to_uint8 (Z.lor p (Z.shiftl 1 n)) = p.
Proof.
  intros Hp Hn Hbit. apply byte_eq_bits; [apply to_uint8_is_byte | done |].
  intros k Hk. rewrite pullHigh_testbit by lia.
  destruct (Z.eqb_spec k n) as [-> | _]; done.
Qed.

Lemma pullLow_idle p n :
  is_byte p -> 0 <= n < 8 -> Z.testbit p n = false ->
  to_uint8 (Z.land p (Z.lnot (Z.shiftl 1 n))) = p.
Proof.
  intros Hp Hn Hbit. apply byte_eq_bits; [apply to_uint8_is_byte | done |].
  intros k Hk. rewrite pullLow_testbit by lia.
  destruct (Z.eqb_spec k n) as [-> | _]; done.
Qed.

(** X19.  A guarded operation computes both port values from the port as
    it finds it.  When the select line is at its idle level on entry (SS
    bit high in the default mode, low in the inverted mode), the last port
    write restores the port to exactly the value found; when the line is
    already at its active level on entry, the first port write changes
    nothing, so the slave sees no edge before the first byte. *)
Theorem X19_guard_and_idle_level (op : guarded_op) (SS_PORTx SS_PORTxn SSmode : Z) :
  is_byte SS_PORTx ->
  0 <= SS_PORTxn < 8 ->
  SSmode = DEFAULT_SS_CONTROL \/ SSmode = INVERTED_SS_CONTROL ->
  exists a d,
    port_writes (trace_of op SS_PORTx SS_PORTxn SSmode) = [a; d] /\
    (Z.testbit SS_PORTx SS_PORTxn = (SSmode =? DEFAULT_SS_CONTROL) ->
     d = SS_PORTx) /\
    (Z.testbit SS_PORTx SS_PORTxn = (SSmode =? INVERTED_SS_CONTROL) ->
     a = SS_PORTx).
Proof.
  intros Hp Hn Hmode. rewrite port_writes_trace_of. eexists _, _.
  split; [done |].
  destruct Hmode as [-> | ->].
  - rewrite SS_begin_default, SS_end_default. split; intros Hbit.
    + by apply pullHigh_idle.
    + by apply pullLow_idle.
  - rewrite SS_begin_inverted, SS_end_inverted. split; intros Hbit.
    + by apply pullLow_idle.
    + by apply pullHigh_idle.
Qed.

Lemma X19_guard_and_idle_level_witness :
  exists a d,
    port_writes (trace_of (TransmitHex 2 0x1234) 0xB5 4 DEFAULT_SS_CONTROL) = [a; d] /\
    (Z.testbit 0xB5 4 = (DEFAULT_SS_CONTROL =? DEFAULT_SS_CONTROL) -> d = 0xB5) /\
    (Z.testbit 0xB5 4 = (DEFAULT_SS_CONTROL =? INVERTED_SS_CONTROL) -> a = 0xB5).
Proof.
  apply (X19_guard_and_idle_level (TransmitHex 2 0x1234) 0xB5 4 DEFAULT_SS_CONTROL).
  - unfold is_byte. lia.
  - lia.
  - left. reflexivity.
Defined.

(** * SPI_init *)

Ltac reg_bits :=
  unfold or_eq, and_not_eq;
  repeat first
    [ rewrite to_uint8_testbit by lia
    | rewrite Z.lor_spec
    | rewrite Z.land_spec
    | rewrite Z.lnot_spec by lia
    | rewrite Z.shiftl_1_l
    | rewrite Z.pow2_bits_eqb by lia ].

Ltac eqb_cases :=
  repeat match goal with
         | |- context [Z.eqb ?u ?v] => destruct (Z.eqb_spec u v); try lia
         end.

Lemma SPI_init_slave_regs io deviceMode dataOrder SPIMode clockRate r :
  deviceMode <> MASTER_MODE ->
  SPI_init io deviceMode dataOrder SPIMode clockRate r
  = mkRegs
      (or_eq (and_not_eq (SPI_DDRx r)
                (Z.lor (Z.lor (Z.shiftl 1 (SS_PIN_PORTxn io))
                              (Z.shiftl 1 (MOSI_PIN_PORTxn io)))
                       (Z.shiftl 1 (SCK_PIN_PORTxn io))))
             (Z.shiftl 1 (MISO_PIN_PORTxn io)))
      (SPI_PORTx r)
      (or_eq (or_eq (and_not_eq (SPCR r) (Z.shiftl 1 (MSTR io)))
                    (Z.shiftl 1 (SPIE io)))
             (Z.lor (Z.lor dataOrder SPIMode) (Z.shiftl 1 (SPE io))))
      (SPSR r) (SREG_I r).
Proof.
  intros Hmode. unfold SPI_init.
  by replace (deviceMode =? MASTER_MODE) with false
    by (symmetry; by apply Z.eqb_neq).
Qed.

Lemma SPI_init_master_regs io dataOrder SPIMode clockRate r :
  SPI_init io MASTER_MODE dataOrder SPIMode clockRate r
  = mkRegs
      (and_not_eq (or_eq (SPI_DDRx r)
                     (Z.lor (Z.lor (Z.shiftl 1 (SS_PIN_PORTxn io))
                                   (Z.shiftl 1 (MOSI_PIN_PORTxn io)))
                            (Z.shiftl 1 (SCK_PIN_PORTxn io))))
                  (Z.shiftl 1 (MISO_PIN_PORTxn io)))
      (SPI_PORTx r)
      (or_eq (or_eq (or_eq (SPCR r) (Z.shiftl 1 (MSTR io)))
                    (Z.land clockRate FOSC_MASK))
             (Z.lor (Z.lor dataOrder SPIMode) (Z.shiftl 1 (SPE io))))
      (or_eq (SPSR r) (Z.shiftr clockRate 2)) (SREG_I r).
Proof. reflexivity. Qed.

(** X20.  [SPI_init] with any [deviceMode] other than [MASTER_MODE]
    configures a slave: in SPCR the bits SPIE and SPE are set and MSTR is
    clear (the data order and mode arguments not containing the MSTR bit);
    MISO is an output, SS, MOSI and SCK are inputs and the other direction
    bits are unchanged; SPSR and the port are not written, the clock rate
    argument is ignored. *)
Theorem X20_SPI_init_slave (io : avr_io)
    (deviceMode dataOrder SPIMode clockRate : Z) (r : regs) :
  io_ok io ->
  deviceMode <> MASTER_MODE ->
  Z.testbit (Z.lor dataOrder SPIMode) (MSTR io) = false ->
  let r' := SPI_init io deviceMode dataOrder SPIMode clockRate r in
  Z.testbit (SPCR r') (SPIE io) = true /\
  Z.testbit (SPCR r') (SPE io) = true /\
  Z.testbit (SPCR r') (MSTR io) = false /\
  Z.testbit (SPI_DDRx r') (MISO_PIN_PORTxn io) = true /\
  Z.testbit (SPI_DDRx r') (SS_PIN_PORTxn io) = false /\
  Z.testbit (SPI_DDRx r') (MOSI_PIN_PORTxn io) = false /\
  Z.testbit (SPI_DDRx r') (SCK_PIN_PORTxn io) = false /\
  (forall k, 0 <= k < 8 ->
     k <> SS_PIN_PORTxn io -> k <> MOSI_PIN_PORTxn io ->
     k <> MISO_PIN_PORTxn io -> k <> SCK_PIN_PORTxn io ->
     Z.testbit (SPI_DDRx r') k = Z.testbit (SPI_DDRx r) k) /\
  SPSR r' = SPSR r /\ SPI_PORTx r' = SPI_PORTx r /\
  r' = SPI_init io deviceMode dataOrder SPIMode 0 r.
Proof.
  intros Hio Hmode Harg r'. unfold r'.
  rewrite !(SPI_init_slave_regs io deviceMode) by done.
  cbn [SPCR SPI_DDRx SPSR SPI_PORTx].
  destruct Hio as (? & ? & ? & ? & ? & ? & ? & ? & ? & ? & ? & ? & ?).
  rewrite Z.lor_spec in Harg. apply orb_false_iff in Harg.
  destruct Harg as [Hd Hs].
  repeat split; try (intros k Hk Hk1 Hk2 Hk3 Hk4); reg_bits;
    rewrite ?Hd, ?Hs; eqb_cases; cbn; try done;
    rewrite ?orb_false_r, ?andb_true_r, ?andb_false_r, ?orb_true_r; done.
Qed.

Lemma X20_SPI_init_slave_witness :
  let r' := SPI_init ATmega88 SLAVE_MODE MSB_FIRST SPI_MODE_0 FOSC_DIV16
              (mkRegs 0 0 0 0 false) in
  Z.testbit (SPCR r') (SPIE ATmega88) = true /\
  Z.testbit (SPCR r') (SPE ATmega88) = true /\
  Z.testbit (SPCR r') (MSTR ATmega88) = false /\
  Z.testbit (SPI_DDRx r') (MISO_PIN_PORTxn ATmega88) = true /\
  Z.testbit (SPI_DDRx r') (SS_PIN_PORTxn ATmega88) = false /\
  Z.testbit (SPI_DDRx r') (MOSI_PIN_PORTxn ATmega88) = false /\
  Z.testbit (SPI_DDRx r') (SCK_PIN_PORTxn ATmega88) = false /\
  (forall k, 0 <= k < 8 ->
     k <> SS_PIN_PORTxn ATmega88 -> k <> MOSI_PIN_PORTxn ATmega88 ->
     k <> MISO_PIN_PORTxn ATmega88 -> k <> SCK_PIN_PORTxn ATmega88 ->
     Z.testbit (SPI_DDRx r') k = Z.testbit (SPI_DDRx (mkRegs 0 0 0 0 false)) k) /\
  SPSR r' = SPSR (mkRegs 0 0 0 0 false) /\
  SPI_PORTx r' = SPI_PORTx (mkRegs 0 0 0 0 false) /\
  r' = SPI_init ATmega88 SLAVE_MODE MSB_FIRST SPI_MODE_0 0 (mkRegs 0 0 0 0 false).
Proof.
  apply (X20_SPI_init_slave ATmega88 SLAVE_MODE MSB_FIRST SPI_MODE_0 FOSC_DIV16
           (mkRegs 0 0 0 0 false)).
  - unfold io_ok. cbn. lia.
  - discriminate.
  - reflexivity.
Defined.

Lemma SPI_init_master_port io dataOrder SPIMode clockRate r :
  io_ok io ->
  SPI_PORTx (SPI_init io MASTER_MODE dataOrder SPIMode clockRate r) = SPI_PORTx r /\
  Z.testbit (SPI_DDRx (SPI_init io MASTER_MODE dataOrder SPIMode clockRate r))
    (SS_PIN_PORTxn io) = true.
Proof.
  intros Hio. rewrite SPI_init_master_regs. cbn [SPI_PORTx SPI_DDRx].
  destruct Hio as (? & ? & ? & ? & ? & ? & ? & ? & ? & ? & ? & ? & ?).
  split; [done |]. reg_bits. eqb_cases; cbn; try done; try (by rewrite ?orb_true_r).
Qed.

(** X21.  [SPI_init] in master mode: SS, MOSI and SCK become outputs and
    MISO an input, the other direction bits are unchanged; in SPCR the bits
    MSTR and SPE are set; the two low bits of [clockRate] are or-ed into
    bits 1..0 of SPCR and its bit 2 into bit 0 of SPSR, so that each bit
    [k] of SPCR ends up set exactly when it was set before or is MSTR, SPE,
    or a bit of [clockRate & 3], [dataOrder] or [SPIMode]. *)
Theorem X21_SPI_init_master (io : avr_io) (dataOrder SPIMode clockRate : Z)
    (r : regs) :
  io_ok io ->
  let r' := SPI_init io MASTER_MODE dataOrder SPIMode clockRate r in
  Z.testbit (SPCR r') (MSTR io) = true /\
  Z.testbit (SPCR r') (SPE io) = true /\
  (forall k, 0 <= k < 8 ->
     Z.testbit (SPCR r') k
     = Z.testbit (SPCR r) k || (k =? MSTR io) || (k =? SPE io)
       || ((k <? 2) && Z.testbit clockRate k)
       || Z.testbit dataOrder k || Z.testbit SPIMode k) /\
  (forall k, 0 <= k < 8 ->
     Z.testbit (SPSR r') k = Z.testbit (SPSR r) k || Z.testbit clockRate (k + 2)) /\
  Z.testbit (SPI_DDRx r') (SS_PIN_PORTxn io) = true /\
  Z.testbit (SPI_DDRx r') (MOSI_PIN_PORTxn io) = true /\
  Z.testbit (SPI_DDRx r') (SCK_PIN_PORTxn io) = true /\
  Z.testbit (SPI_DDRx r') (MISO_PIN_PORTxn io) = false /\
  (forall k, 0 <= k < 8 ->
     k <> SS_PIN_PORTxn io -> k <> MOSI_PIN_PORTxn io ->
     k <> MISO_PIN_PORTxn io -> k <> SCK_PIN_PORTxn io ->
     Z.testbit (SPI_DDRx r') k = Z.testbit (SPI_DDRx r) k) /\
  SPI_PORTx r' = SPI_PORTx r.
Proof.
  intros Hio r'. unfold r'. rewrite SPI_init_master_regs.
  cbn [SPCR SPI_DDRx SPSR SPI_PORTx].
  destruct Hio as (? & ? & ? & ? & ? & ? & ? & ? & ? & ? & ? & ? & ?).
  assert (Hmask : forall k, 0 <= k -> Z.testbit FOSC_MASK k = (k <? 2)).
  { intros k Hk. change FOSC_MASK with (Z.ones 2).
    destruct (Z.ltb_spec k 2).
    - apply Z.ones_spec_low. lia.
    - apply Z.ones_spec_high. lia. }
  repeat split; try (intros k Hk); try (intros Hk1 Hk2 Hk3 Hk4); reg_bits;
    rewrite ?Hmask, ?Z.shiftr_spec by lia;
    eqb_cases; cbn;
    rewrite ?orb_false_r, ?andb_true_r, ?andb_false_r, ?orb_true_r; try done.
  destruct (Z.testbit (SPCR r) k), (k <? 2), (Z.testbit clockRate k),
    (Z.testbit dataOrder k), (Z.testbit SPIMode k); done.
Qed.

Lemma X21_SPI_init_master_witness :
  let r' := SPI_init ATmega32 MASTER_MODE MSB_FIRST SPI_MODE_0 FOSC_DIV16
              (mkRegs 0 0 0 0 false) in
  Z.testbit (SPCR r') (MSTR ATmega32) = true /\
  Z.testbit (SPCR r') (SPE ATmega32) = true /\
  (forall k, 0 <= k < 8 ->
     Z.testbit (SPCR r') k
     = Z.testbit (SPCR (mkRegs 0 0 0 0 false)) k
       || (k =? MSTR ATmega32) || (k =? SPE ATmega32)
       || ((k <? 2) && Z.testbit FOSC_DIV16 k)
       || Z.testbit MSB_FIRST k || Z.testbit SPI_MODE_0 k) /\
  (forall k, 0 <= k < 8 ->
     Z.testbit (SPSR r') k
     = Z.testbit (SPSR (mkRegs 0 0 0 0 false)) k || Z.testbit FOSC_DIV16 (k + 2)) /\
  Z.testbit (SPI_DDRx r') (SS_PIN_PORTxn ATmega32) = true /\
  Z.testbit (SPI_DDRx r') (MOSI_PIN_PORTxn ATmega32) = true /\
  Z.testbit (SPI_DDRx r') (SCK_PIN_PORTxn ATmega32) = true /\
  Z.testbit (SPI_DDRx r') (MISO_PIN_PORTxn ATmega32) = false /\
  (forall k, 0 <= k < 8 ->
     k <> SS_PIN_PORTxn ATmega32 -> k <> MOSI_PIN_PORTxn ATmega32 ->
     k <> MISO_PIN_PORTxn ATmega32 -> k <> SCK_PIN_PORTxn ATmega32 ->
     Z.testbit (SPI_DDRx r') k = Z.testbit (SPI_DDRx (mkRegs 0 0 0 0 false)) k) /\
  SPI_PORTx r' = SPI_PORTx (mkRegs 0 0 0 0 false).
Proof.
  apply (X21_SPI_init_master ATmega32 MSB_FIRST SPI_MODE_0 FOSC_DIV16
           (mkRegs 0 0 0 0 false)).
  unfold io_ok. cbn. lia.
Defined.

(** X22.  [SPI_init] only sets bits: every bit of SPCR that is set before
    the call is still set after it, save MSTR in slave mode, and so is
    every bit of SPSR.  A second call therefore cannot select a lower SPI
    mode, MSB-first after LSB-first, or clear a clock rate bit. *)
Theorem X22_SPI_init_clears_nothing (io : avr_io)
    (deviceMode dataOrder SPIMode clockRate : Z) (r : regs) (k : Z) :
  io_ok io ->
  0 <= k < 8 ->
  let r' := SPI_init io deviceMode dataOrder SPIMode clockRate r in
  (Z.testbit (SPCR r) k = true ->
   deviceMode = MASTER_MODE \/ k <> MSTR io ->
   Z.testbit (SPCR r') k = true) /\
  (Z.testbit (SPSR r) k = true -> Z.testbit (SPSR r') k = true).
Proof.
  intros Hio Hk r'. unfold r'.
  destruct Hio as (? & ? & ? & ? & ? & ? & ? & ? & ? & ? & ? & ? & ?).
  destruct (Z.eq_dec deviceMode MASTER_MODE) as [-> | Hmode].
  - rewrite SPI_init_master_regs. cbn [SPCR SPSR].
    split; [intros Hbit _ | intros Hbit]; reg_bits; by rewrite Hbit.
  - rewrite SPI_init_slave_regs by done. cbn [SPCR SPSR].
    split; [intros Hbit [Hm | Hkm]; [done |] | done].
    reg_bits. rewrite Hbit. eqb_cases; done.
Qed.

Lemma X22_SPI_init_clears_nothing_witness :
  let r1 := SPI_init ATmega32 MASTER_MODE LSB_FIRST SPI_MODE_3 FOSC_DIV8
              (mkRegs 0 0 0 0 false) in
  let r2 := SPI_init ATmega32 MASTER_MODE MSB_FIRST SPI_MODE_0 FOSC_DIV4 r1 in
  Z.testbit (SPCR r2) 3 = true /\ Z.testbit (SPSR r2) 0 = true.
Proof.
  intros r1 r2. split.
  - apply (X22_SPI_init_clears_nothing ATmega32 MASTER_MODE MSB_FIRST SPI_MODE_0
             FOSC_DIV4 r1 3).
    + unfold io_ok. cbn. lia.
    + lia.
    + reflexivity.
    + by left.
  - apply (X22_SPI_init_clears_nothing ATmega32 MASTER_MODE MSB_FIRST SPI_MODE_0
             FOSC_DIV4 r1 0).
    + unfold io_ok. cbn. lia.
    + lia.
    + reflexivity.
Defined.

(** * The example programs *)

(** X23.  [init] of the master examples does not raise the SS line: for
    every SS pin number from 1 on, [1 >> SS_PIN_PORTxn] is 0 and
    [SPI_PORTx |= 0] leaves the port as it was, the SS bit included, while
    the SS pin has been made an output and interrupts are enabled.  This
    holds for both devices of the pin header. *)
Theorem X23_master_init_leaves_SS_level (io : avr_io) (r : regs) :
  io_ok io ->
  0 < SS_PIN_PORTxn io ->
  is_byte (SPI_PORTx r) ->
  SPI_PORTx (master_init io r) = SPI_PORTx r /\
  Z.testbit (SPI_DDRx (master_init io r)) (SS_PIN_PORTxn io) = true /\
  SREG_I (master_init io r) = true.
Proof.
  intros Hio Hss Hport. unfold master_init.
  pose proof (SPI_init_master_port io MSB_FIRST SPI_MODE_0 FOSC_DIV16 r Hio)
    as (Hp & Hddr).
  cbn [set_SREG_I set_SPI_PORTx SPI_PORTx SPI_DDRx SREG_I].
  rewrite Hp. split; [| split; [exact Hddr | done]].
  unfold or_eq. rewrite Z.shiftr_div_pow2 by lia.
  rewrite Z.div_small, Z.lor_0_r.
  - unfold to_uint8. by apply Z.mod_small.
  - split; [lia |]. apply Z.pow_gt_1; lia.
Qed.

Lemma X23_master_init_leaves_SS_level_witness :
  SPI_PORTx (master_init ATmega32 (mkRegs 0 0 0 0 false))
  = SPI_PORTx (mkRegs 0 0 0 0 false) /\
  Z.testbit (SPI_DDRx (master_init ATmega32 (mkRegs 0 0 0 0 false)))
    (SS_PIN_PORTxn ATmega32) = true /\
  SREG_I (master_init ATmega32 (mkRegs 0 0 0 0 false)) = true.
Proof.
  apply (X23_master_init_leaves_SS_level ATmega32 (mkRegs 0 0 0 0 false)).
  - unfold io_ok. cbn. lia.
  - cbn. lia.
  - unfold is_byte. cbn. lia.
Defined.

(** X24.  One turn of the string slave's main loop after a message [M]
    (no terminator byte, no zero byte) arrived in a quiescent state whose
    [SPI_data] holds a zero right behind the message: the turn delivers the
    message, xors [1 << LED_PORTxn] into the LED port when [M] is the
    command string (up to its NUL) and leaves the port alone otherwise; the
    state is quiescent again and a further turn without new bytes changes
    nothing. *)
Theorem X24_slave_loop_toggles_on_command (cap : Z) (st : state)
    (command M : list Z) (LED_PORTxn LED : Z) :
  cap <= 2 ^ 8 ->
  framable cap M ->
  0 ∉ M ->
  quiescent cap st ->
  SPI_data st !! length M = Some 0 ->
  exists st1 st' LED',
    run_ISR (M ++ [DATA_END_CHAR]) st = Ok st1 /\
    slave_loop_body command LED_PORTxn (st1, LED) = Ok (st', LED') /\
    (M = c_str command -> LED' = to_uint8 (Z.lxor LED (Z.shiftl 1 LED_PORTxn))) /\
    (M <> c_str command -> LED' = LED) /\
    quiescent cap st' /\
    slave_loop_body command LED_PORTxn (st', LED') = Ok (st', LED').
Proof.
  intros Hcap Hfr Hnul Hq Hzero.
  destruct (frame_then_read_quiescent cap M st Hcap Hfr Hq)
    as (st1 & st' & Hrun & Hread & Htake & Hdrop & Hq').
  assert (Hstr : c_str (SPI_data st') = M).
  { rewrite <- (take_drop (length M) (SPI_data st')), Htake, Hdrop.
    rewrite (drop_S _ _ _ Hzero). by apply c_str_app_NUL. }
  assert (Hidle : forall led,
             slave_loop_body command LED_PORTxn (st', led) = Ok (st', led)).
  { intros led. unfold slave_loop_body. cbn [fst snd].
    rewrite SPI_readAll_idle by apply Hq'. reflexivity. }
  assert (Hturn : slave_loop_body command LED_PORTxn (st1, LED)
                  = Ok (st', if SPI_strcmp (SPI_data st') command =? 0
                             then to_uint8 (Z.lxor LED (Z.shiftl 1 LED_PORTxn))
                             else LED)).
  { unfold slave_loop_body. cbn [fst snd]. rewrite Hread. cbn [bind fst snd].
    by destruct (_ =? 0). }
  eexists st1, st', _. split; [done |]. split; [exact Hturn |].
  destruct (Z.eqb_spec (SPI_strcmp (SPI_data st') command) 0) as [Heq | Hne].
  - apply strcmp_zero_iff in Heq. rewrite Hstr in Heq.
    repeat split; try done; apply Hq'.
  - assert (M <> c_str command).
    { intros HM. apply Hne, strcmp_zero_iff. by rewrite Hstr. }
    repeat split; try done; apply Hq'.
Qed.

Lemma X24_slave_loop_toggles_on_command_witness :
  exists st1 st' LED',
    run_ISR (chars_of_string "TOGGLE" ++ [DATA_END_CHAR]) (init_state DATA_LENGTH)
    = Ok st1 /\
    slave_loop_body (chars_of_string "TOGGLE") 5 (st1, 0) = Ok (st', LED') /\
    LED' = 32 /\
    quiescent DATA_LENGTH st' /\
    slave_loop_body (chars_of_string "TOGGLE") 5 (st', LED') = Ok (st', LED').
Proof.
  destruct (X24_slave_loop_toggles_on_command DATA_LENGTH (init_state DATA_LENGTH)
              (chars_of_string "TOGGLE") (chars_of_string "TOGGLE") 5 0)
    as (st1 & st' & LED' & Hrun & Hbody & Hyes & _ & Hq & Hidle).
  - vm_compute. discriminate.
  - change (chars_of_string "TOGGLE") with [84; 79; 71; 71; 76; 69].
    split; [not_in_list | vm_compute; reflexivity].
  - change (chars_of_string "TOGGLE") with [84; 79; 71; 71; 76; 69]. not_in_list.
  - repeat split.
  - reflexivity.
  - exists st1, st', LED'. repeat split; try done; try apply Hq.
    rewrite Hyes; reflexivity.
Defined.
